(** * The server-side game engine of I_like_trains (server/game.py)

    A shallow embedding of the [Game] class: the world bounds, the train
    dictionary, the passenger list, the spawn search, the passenger
    population control, the grow / shrink logic of the play field, the
    tick and the lock that guards them. *)

From Stdlib Require Import ZArith List String Bool Lia Arith.
Import ListNotations.
Open Scope Z_scope.

(** ** Python dictionaries, in insertion order *)

Section Dict.
Context {V : Type}.

Definition dict := list (string * V).

Fixpoint dict_get (k : string) (d : dict) : option V :=
  match d with
  | [] => None
  | (k', v) :: d' => if String.eqb k k' then Some v else dict_get k d'
  end.

Definition dict_mem (k : string) (d : dict) : bool :=
  match dict_get k d with Some _ => true | None => false end.

(** [d[k] = v]: an existing key keeps its place, a new key goes last. *)
Fixpoint dict_set (k : string) (v : V) (d : dict) : dict :=
  match d with
  | [] => [(k, v)]
  | (k', v') :: d' =>
      if String.eqb k k' then (k', v) :: d' else (k', v') :: dict_set k v d'
  end.

(** [d.pop(k)] for a key that is present (the caller tests membership). *)
Fixpoint dict_pop (k : string) (d : dict) : dict :=
  match d with
  | [] => []
  | (k', v') :: d' =>
      if String.eqb k k' then d' else (k', v') :: dict_pop k d'
  end.

Definition dict_keys (d : dict) : list string := map fst d.
Definition dict_values (d : dict) : list V := map snd d.
End Dict.
Arguments dict V : clear implicits.

(** The same keys, each value changed in place by [f]. *)
Definition dict_map_values {V} (f : V -> V) (d : dict V) : dict V :=
  map (fun kv => (fst kv, f (snd kv))) d.

(** ** Entities *)

Definition pos : Type := Z * Z.

Definition pos_eqb (p q : pos) : bool :=
  (fst p =? fst q) && (snd p =? snd q).

Inductive Direction := UP | DOWN | LEFT | RIGHT.

Record Train := mkTrain {
  position : pos;
  wagons : list pos;
  direction : Direction;
  new_direction : option Direction;
  alive : bool;
  agent_name : string
}.

Record Passenger := mkPassenger { p_position : pos }.

(** ** The engine state *)

Definition ORIGINAL_SCREEN_WIDTH : Z := 200.
Definition ORIGINAL_SCREEN_HEIGHT : Z := 200.

Record Game := mkGame {
  screen_width : Z;
  screen_height : Z;
  grid_size : Z;
  running : bool;
  trains : dict Train;
  passengers : list Passenger;
  screen_padding : Z;
  lock : bool;                (* True while [self.lock] is held *)
  spawn_safe_zone : Z
}.

Definition Game_init : Game :=
  {| screen_width := ORIGINAL_SCREEN_WIDTH;
     screen_height := ORIGINAL_SCREEN_HEIGHT;
     grid_size := 20;
     running := true;
     trains := [];
     passengers := [];
     screen_padding := 100;
     lock := false;
     spawn_safe_zone := 3 |}.

Definition set_screen_width (v : Z) (g : Game) : Game :=
  mkGame v (screen_height g) (grid_size g) (running g) (trains g)
         (passengers g) (screen_padding g) (lock g) (spawn_safe_zone g).
Definition set_screen_height (v : Z) (g : Game) : Game :=
  mkGame (screen_width g) v (grid_size g) (running g) (trains g)
         (passengers g) (screen_padding g) (lock g) (spawn_safe_zone g).
Definition set_trains (v : dict Train) (g : Game) : Game :=
  mkGame (screen_width g) (screen_height g) (grid_size g) (running g) v
         (passengers g) (screen_padding g) (lock g) (spawn_safe_zone g).
Definition set_passengers (v : list Passenger) (g : Game) : Game :=
  mkGame (screen_width g) (screen_height g) (grid_size g) (running g)
         (trains g) v (screen_padding g) (lock g) (spawn_safe_zone g).
Definition set_lock (v : bool) (g : Game) : Game :=
  mkGame (screen_width g) (screen_height g) (grid_size g) (running g)
         (trains g) (passengers g) (screen_padding g) v (spawn_safe_zone g).

(** ** Effects: the random module, exceptions, the lock and a trace

    A call runs on a [World]: the engine object, the state of Python's
    [random] module (a tape of raw draws and a cursor) and the trace of
    lock operations and of writes to the shared structures. *)

Inductive Field := FTrains | FPassengers | FWidth | FHeight.

Inductive Event :=
| Acquire
| Release
| Mutate (f : Field).

Record World := mkWorld {
  game : Game;
  tape : nat -> Z;
  cursor : nat;
  trace : list Event
}.

Inductive Exn := ValueError | ZeroDivisionError.

(** [Hang]: the call never returns (a second acquisition of the
    non-reentrant lock, or a loop that outlives the fuel it was given). *)
Inductive Outcome (A : Type) :=
| Ret (a : A)
| Raise (e : Exn)
| Hang.
Arguments Ret {A} a.
Arguments Raise {A} e.
Arguments Hang {A}.

Definition M (A : Type) : Type := World -> Outcome A * World.

Definition ret {A} (a : A) : M A := fun w => (Ret a, w).

Definition bind {A B} (c : M A) (k : A -> M B) : M B :=
  fun w =>
    match c w with
    | (Ret a, w') => k a w'
    | (Raise e, w') => (Raise e, w')
    | (Hang, w') => (Hang, w')
    end.

Definition raise {A} (e : Exn) : M A := fun w => (Raise e, w).

Declare Scope engine_scope.
Delimit Scope engine_scope with engine.
Notation "x <- c ;; k" := (bind c (fun x => k))
  (at level 61, c at next level, right associativity) : engine_scope.
Notation "c ;; k" := (bind c (fun _ => k))
  (at level 61, right associativity) : engine_scope.
Open Scope engine_scope.

Definition get_game : M Game := fun w => (Ret (game w), w).

(** A write to one of the shared structures, recorded in the trace. *)
Definition mutate (f : Field) (upd : Game -> Game) : M unit :=
  fun w =>
    (Ret tt, mkWorld (upd (game w)) (tape w) (cursor w) (trace w ++ [Mutate f])).

(** The next raw draw of the random module. *)
Definition draw : M Z :=
  fun w =>
    (Ret (tape w (cursor w)), mkWorld (game w) (tape w) (S (cursor w)) (trace w)).

(** [random.randint(a, b)]: an integer in [a, b], ValueError on an empty
    range. *)
Definition randint (a b : Z) : M Z :=
  if a <=? b then (r <- draw ;; ret (a + r mod (b - a + 1)))
  else raise ValueError.

(** Python's [//] on integers. *)
Definition floordiv (a b : Z) : M Z :=
  if b =? 0 then raise ZeroDivisionError else ret (a / b).

Definition acquire : M unit :=
  fun w =>
    if lock (game w) then (Hang, w)
    else (Ret tt, mkWorld (set_lock true (game w)) (tape w) (cursor w)
                          (trace w ++ [Acquire])).

Definition release : M unit :=
  fun w =>
    (Ret tt, mkWorld (set_lock false (game w)) (tape w) (cursor w)
                     (trace w ++ [Release])).

(** [with self.lock: body]: the lock is released however the body ends. *)
Definition with_lock {A} (body : M A) : M A :=
  fun w =>
    match acquire w with
    | (Ret _, w1) => let (r, w2) := body w1 in (r, snd (release w2))
    | (Raise e, w1) => (Raise e, w1)
    | (Hang, w1) => (Hang, w1)
    end.

(** [while cond: body], with fuel. *)
Fixpoint while (fuel : nat) (cond : Game -> bool) (body : M unit) : M unit :=
  fun w =>
    if cond (game w) then
      match fuel with
      | O => (Hang, w)
      | S n =>
          match body w with
          | (Ret _, w') => while n cond body w'
          | (Raise e, w') => (Raise e, w')
          | (Hang, w') => (Hang, w')
          end
      end
    else (Ret tt, w).

(** ** The Train and Passenger classes

    [train.py] and [passenger.py] are imported by the engine but are not
    among the sources; the engine reads [train.position], [train.wagons]
    and [train.alive] and calls the methods below. *)

Definition step_of (d : Direction) (grid : Z) : pos :=
  match d with
  | UP => (0, - grid)
  | DOWN => (0, grid)
  | LEFT => (- grid, 0)
  | RIGHT => (grid, 0)
  end.

Fixpoint remove_first_at (p : pos) (ps : list Passenger) : list Passenger :=
  match ps with
  | [] => []
  | q :: ps' => if pos_eqb (p_position q) p then ps' else q :: remove_first_at p ps'
  end.

(** Modelled from the spec: Train.update (train.py is missing), section
    4.5: a pending direction change takes effect at the start of the
    update; the head advances by one grid cell in the current direction
    and each wagon takes the place of the segment ahead of it; when the new
    head is on a passenger's cell that passenger leaves the shared list and
    one wagon is appended at the tail. *)
Definition Train_update (t : Train) (ps : list Passenger) (grid : Z)
  : Train * list Passenger :=
  let d := match new_direction t with Some d' => d' | None => direction t end in
  let head := (fst (position t) + fst (step_of d grid),
               snd (position t) + snd (step_of d grid)) in
  let shifted := match wagons t with
                 | [] => []
                 | _ :: _ => position t :: removelast (wagons t)
                 end in
  let vacated := last (wagons t) (position t) in
  if existsb (fun q => pos_eqb (p_position q) head) ps
  then (mkTrain head (shifted ++ [vacated]) d None (alive t) (agent_name t),
        remove_first_at head ps)
  else (mkTrain head shifted d None (alive t) (agent_name t), ps).

(** Modelled from the spec: Train.check_collisions (train.py is missing),
    section 4.5 step 3: the head is on another train's head or on a wagon
    of any train, its own included. *)
Definition Train_check_collisions (t : Train) (all : dict Train) : bool :=
  existsb (fun o =>
             (negb (String.eqb (agent_name o) (agent_name t))
              && pos_eqb (position o) (position t))
             || existsb (pos_eqb (position t)) (wagons o))
          (dict_values all).

(** Modelled from the spec: the alive flag of a train on which a death
    condition has been detected (section 3). *)
Definition Train_mark_dead (t : Train) : Train :=
  mkTrain (position t) (wagons t) (direction t) (new_direction t) false
          (agent_name t).

(** Modelled from the spec: what Train.check_collisions does to the other
    trains (train.py is missing), section 4.5 step 3 and section 3: when
    the head of [t] is on the head of another train, that train is marked
    dead in the same tick; the engine removes it at the tick that follows,
    where it tests the alive flag. *)
Definition Train_mark_head_on (t : Train) (all : dict Train) : dict Train :=
  dict_map_values
    (fun o => if negb (String.eqb (agent_name o) (agent_name t))
                 && pos_eqb (position o) (position t)
              then Train_mark_dead o else o)
    all.

(** Modelled from the spec: Train.check_out_of_bounds (train.py is
    missing), section 4.5 step 4: the head is outside
    [0, width) x [0, height). *)
Definition Train_check_out_of_bounds (t : Train) (width height : Z) : bool :=
  (fst (position t) <? 0) || (fst (position t) >=? width)
  || (snd (position t) <? 0) || (snd (position t) >=? height).

(** Modelled from the spec: Train.change_direction (train.py is missing),
    section 4.1: the new heading is queued for the next update. *)
Definition Train_change_direction (t : Train) (d : Direction) : Train :=
  mkTrain (position t) (wagons t) (direction t) (Some d) (alive t) (agent_name t).

Section Engine.

(** The heading of a newly built train: the spec names the four headings
    and does not say which one a new train has. *)
Variable initial_direction : Direction.

(** Modelled from the spec: the Train constructor (train.py is missing):
    a live train at the given head cell, with no wagon and no pending
    direction change. *)
Definition Train_init (x y : Z) (name : string) : Train :=
  mkTrain (x, y) [] initial_direction None true name.

(** Modelled from the spec: the Passenger constructor (passenger.py is
    missing), section 4.4: a position chosen at random on the grid, with
    no safety constraint. *)
Definition Passenger_init : M Passenger :=
  g <- get_game ;;
  cx <- draw ;;
  cy <- draw ;;
  ret (mkPassenger (cx * grid_size g, cy * grid_size g)).

(** *** is_position_safe *)

Definition too_close (safe_distance x y : Z) (p : pos) : bool :=
  (Z.abs (fst p - x) <? safe_distance) && (Z.abs (snd p - y) <? safe_distance).

Definition near_border (g : Game) (x y : Z) : bool :=
  let safe_distance := grid_size g * spawn_safe_zone g in
  (x <? safe_distance) || (y <? safe_distance)
  || (x >? screen_width g - safe_distance)
  || (y >? screen_height g - safe_distance).

Definition is_position_safe (g : Game) (x y : Z) : bool :=
  let safe_distance := grid_size g * spawn_safe_zone g in
  if near_border g x y then false
  else
    forallb (fun t =>
               negb (too_close safe_distance x y (position t))
               && forallb (fun wg => negb (too_close safe_distance x y wg))
                          (wagons t))
            (dict_values (trains g)).

(** *** get_random_grid_position *)

Definition get_random_grid_position : M pos :=
  g <- get_game ;;
  qx <- floordiv (screen_width g) (grid_size g) ;;
  cx <- randint 0 (qx - 1) ;;
  qy <- floordiv (screen_height g) (grid_size g) ;;
  cy <- randint 0 (qy - 1) ;;
  ret (cx * grid_size g, cy * grid_size g).

(** *** get_safe_spawn_position *)

Fixpoint spawn_attempts (n : nat) : M (option pos) :=
  match n with
  | O => ret None
  | S n' =>
      g <- get_game ;;
      qx <- floordiv (screen_width g) (grid_size g) ;;
      cx <- randint (spawn_safe_zone g) (qx - spawn_safe_zone g) ;;
      qy <- floordiv (screen_height g) (grid_size g) ;;
      cy <- randint (spawn_safe_zone g) (qy - spawn_safe_zone g) ;;
      let x := cx * grid_size g in
      let y := cy * grid_size g in
      if is_position_safe g x y then ret (Some (x, y))
      else spawn_attempts n'
  end.

Definition center_position : M pos :=
  g <- get_game ;;
  hx <- floordiv (screen_width g) 2 ;;
  qx <- floordiv hx (grid_size g) ;;
  hy <- floordiv (screen_height g) 2 ;;
  qy <- floordiv hy (grid_size g) ;;
  ret (qx * grid_size g, qy * grid_size g).

Definition get_safe_spawn_position (max_attempts : nat) : M pos :=
  r <- spawn_attempts max_attempts ;;
  match r with
  | Some p => ret p
  | None => center_position
  end.

(** *** update_passengers_count

    [int(len(self.trains) * PASSENGERS_RATIO)] with the ratio 0.5: the
    product of a length and 0.5 is exact, and [int] truncates it, so the
    value is the length halved, rounded down. *)
Definition desired_passengers (g : Game) : nat :=
  Nat.max 1 (Nat.div (List.length (trains g)) 2).

Definition append_passenger : M unit :=
  p <- Passenger_init ;;
  mutate FPassengers (fun g => set_passengers (passengers g ++ [p]) g).

Definition pop_passenger : M unit :=
  mutate FPassengers (fun g => set_passengers (removelast (passengers g)) g).

Definition update_passengers_count : M unit :=
  g <- get_game ;;
  let desired := desired_passengers g in
  while desired
        (fun g' => Nat.ltb (List.length (passengers g')) desired)
        append_passenger ;;
  g1 <- get_game ;;
  while (List.length (passengers g1))
        (fun g' => Nat.ltb desired (List.length (passengers g')))
        pop_passenger.

(** *** World sizing *)

Definition past_threshold (g : Game) (p : pos) : bool :=
  (fst p >=? screen_width g - screen_padding g - 50)
  || (snd p >=? screen_height g - screen_padding g - 50).

Definition can_reduce_padding (g : Game) : bool :=
  forallb (fun t =>
             negb (past_threshold g (position t))
             && forallb (fun wp => negb (past_threshold g wp)) (wagons t))
          (dict_values (trains g)).

Definition reduce_padding : M unit :=
  g <- get_game ;;
  if can_reduce_padding g then
    mutate FWidth (fun g' => set_screen_width (screen_width g' - screen_padding g') g') ;;
    mutate FHeight (fun g' => set_screen_height (screen_height g' - screen_padding g') g')
  else ret tt.

Definition update_screen_size : M unit :=
  mutate FWidth (fun g' => set_screen_width (screen_width g' + screen_padding g') g') ;;
  mutate FHeight (fun g' => set_screen_height (screen_height g' + screen_padding g') g').

(** *** add_train, remove_train *)

Definition add_train (name : string) : M unit :=
  with_lock
    (p <- get_safe_spawn_position 100 ;;
     mutate FTrains
       (fun g => set_trains
                   (dict_set name (Train_init (fst p) (snd p) name) (trains g)) g) ;;
     update_passengers_count) ;;
  update_screen_size.

Definition remove_train (name : string) : M unit :=
  g <- get_game ;;
  (if dict_mem name (trains g)
   then mutate FTrains (fun g' => set_trains (dict_pop name (trains g')) g')
   else ret tt) ;;
  update_passengers_count ;;
  g1 <- get_game ;;
  if Nat.ltb 0 (List.length (trains g1)) then
    (if can_reduce_padding g1 then reduce_padding else ret tt)
  else
    mutate FWidth (set_screen_width ORIGINAL_SCREEN_WIDTH) ;;
    mutate FHeight (set_screen_height ORIGINAL_SCREEN_HEIGHT) ;;
    mutate FPassengers (set_passengers []).

(** *** update (the tick) *)

(** One turn of the first loop of [update], for the train stored under
    [name]: True when the train has to be removed.  The call of
    check_collisions gives its verdict and marks the trains met head-on. *)
Definition tick_train (name : string) : M bool :=
  g <- get_game ;;
  match dict_get name (trains g) with
  | None => ret false
  | Some t =>
      let (t', ps') := Train_update t (passengers g) (grid_size g) in
      mutate FTrains (fun g' => set_trains (dict_set name t' (trains g')) g') ;;
      mutate FPassengers (set_passengers ps') ;;
      g1 <- get_game ;;
      let collided := Train_check_collisions t' (trains g1) in
      mutate FTrains (fun g' => set_trains (Train_mark_head_on t' (trains g')) g') ;;
      ret (collided
           || Train_check_out_of_bounds t' (screen_width g1) (screen_height g1)
           || negb (alive t'))
  end.

Fixpoint tick_trains (names : list string) : M (list string) :=
  match names with
  | [] => ret []
  | name :: rest =>
      dead <- tick_train name ;;
      others <- tick_trains rest ;;
      ret (if dead then name :: others else others)
  end.

Fixpoint remove_trains (names : list string) : M unit :=
  match names with
  | [] => ret tt
  | name :: rest => remove_train name ;; remove_trains rest
  end.

Definition update : M unit :=
  g <- get_game ;;
  match trains g with
  | [] => ret tt
  | _ :: _ =>
      with_lock
        (g1 <- get_game ;;
         trains_to_remove <- tick_trains (dict_keys (trains g1)) ;;
         remove_trains trains_to_remove)
  end.

(** *** change_direction_of_train *)

Definition change_direction_of_train (name : string) (d : Direction) : M unit :=
  g <- get_game ;;
  match dict_get name (trains g) with
  | Some t =>
      mutate FTrains
        (fun g' => set_trains (dict_set name (Train_change_direction t d) (trains g')) g')
  | None => ret tt
  end.

(** ** Runs of the engine *)

Inductive Call :=
| CallAdd (name : string)
| CallRemove (name : string)
| CallUpdate.

Definition call (c : Call) : M unit :=
  match c with
  | CallAdd name => add_train name
  | CallRemove name => remove_train name
  | CallUpdate => update
  end.

(** The worlds that a sequence of add_train, remove_train and update
    calls reaches from a new engine, whatever the random module draws and
    however each call ends. *)
Inductive reachable : World -> Prop :=
| reach_init : forall tp, reachable (mkWorld Game_init tp 0 [])
| reach_call : forall w c, reachable w -> reachable (snd (call c w)).

(** What a straight-moving train keeps: no queued turn, and the
    coordinate across its heading is the one it was spawned with, at
    least the safe distance of the default configuration. *)
Definition anchored (t : Train) : Prop :=
  new_direction t = None /\
  match direction t with
  | LEFT | RIGHT => 60 <= snd (position t)
  | UP | DOWN => 60 <= fst (position t)
  end.

Definition Inv (g : Game) : Prop :=
  grid_size g = 20 /\ screen_padding g = 100 /\ spawn_safe_zone g = 3 /\
  screen_height g = screen_width g /\
  (exists k, 0 <= k /\ screen_width g = 200 + 100 * k) /\
  Forall anchored (dict_values (trains g)).

(** ** Lock discipline on traces *)

Definition is_mutation (e : Event) : Prop :=
  match e with Mutate _ => True | _ => False end.

(** The fields written while the lock is not held, [held] telling
    whether it is held when the trace starts. *)
Fixpoint unguarded (held : bool) (tr : list Event) : list Field :=
  match tr with
  | [] => []
  | Acquire :: tr' => unguarded true tr'
  | Release :: tr' => unguarded false tr'
  | Mutate f :: tr' =>
      if held then unguarded held tr' else f :: unguarded held tr'
  end.

(** The events a call adds to the trace. *)
Definition events_of {A} (c : M A) (w : World) : list Event :=
  skipn (List.length (trace w)) (trace (snd (c w))).

(** A call that writes only under the lock, started with the lock free. *)
Definition lock_disciplined {A} (c : M A) : Prop :=
  forall w, lock (game w) = false -> unguarded false (events_of c w) = [].

(** ** The spec's wording of some operations, to compare with the code *)

Definition parts (t : Train) : list pos := position t :: wagons t.

(** Section 4.2 as worded: unsafe when within the safe distance of an
    edge, or when, for some head or wagon, it is not the case that both
    axis distances exceed the safe distance. *)
Definition worded_unsafe (g : Game) (x y : Z) : Prop :=
  let safe_distance := grid_size g * spawn_safe_zone g in
  (x < safe_distance \/ y < safe_distance
   \/ x > screen_width g - safe_distance
   \/ y > screen_height g - safe_distance)
  \/ exists t p, In t (dict_values (trains g)) /\ In p (parts t) /\
                 ~ (Z.abs (x - fst p) > safe_distance
                    /\ Z.abs (y - snd p) > safe_distance).

(** Section 4.3 as worded: some head or wagon is within
    [screen_padding - 50] grid units of the right or of the bottom edge;
    [unit] is the length of one such unit (1 when positions and the
    threshold are in the same unit, [grid_size] when the threshold counts
    cells). *)
Definition worded_blocked (unit : Z) (g : Game) : Prop :=
  exists t p, In t (dict_values (trains g)) /\ In p (parts t) /\
              (screen_width g - fst p <= (screen_padding g - 50) * unit
               \/ screen_height g - snd p <= (screen_padding g - 50) * unit).

(** Section 8 as worded: removing a name that is not in the map changes
    nothing and raises nothing. *)
Definition remove_absent_noop (name : string) (w : World) : Prop :=
  dict_mem name (trains (game w)) = false ->
  fst (remove_train name w) = Ret tt /\
  trains (game (snd (remove_train name w))) = trains (game w) /\
  passengers (game (snd (remove_train name w))) = passengers (game w) /\
  screen_width (game (snd (remove_train name w))) = screen_width (game w) /\
  screen_height (game (snd (remove_train name w))) = screen_height (game w).

(** Section 4.1 as worded: adding a name that is in the map changes no
    train and raises nothing. *)
Definition add_present_noop (name : string) (w : World) : Prop :=
  dict_mem name (trains (game w)) = true ->
  fst (add_train name w) = Ret tt /\
  trains (game (snd (add_train name w))) = trains (game w).

(** Section 7 as worded: add_train returns, whatever the engine state. *)
Definition add_train_returns (name : string) (w : World) : Prop :=
  fst (add_train name w) = Ret tt.

(** The spawn ranges of [get_safe_spawn_position] are not empty and the
    grid has a cell size. *)
Definition spawn_ranges_ok (g : Game) : Prop :=
  grid_size g <> 0 /\
  spawn_safe_zone g <= screen_width g / grid_size g - spawn_safe_zone g /\
  spawn_safe_zone g <= screen_height g / grid_size g - spawn_safe_zone g.

End Engine.

(** A call that adds to the trace only events satisfying [P], from any
    world and however it ends. *)
Definition emits {A} (P : Event -> Prop) (c : M A) : Prop :=
  forall w, exists tr, trace (snd (c w)) = trace w ++ tr /\ Forall P tr.

(** Section 5 as worded: each of the four mutating operations writes only
    while it holds the lock. *)
Definition all_calls_hold_lock (initial_direction : Direction) : Prop :=
  forall name d,
    lock_disciplined (add_train initial_direction name) /\
    lock_disciplined (remove_train name) /\
    lock_disciplined update /\
    lock_disciplined (change_direction_of_train name d).

(** ** The engine after a call, in closed form

    The lemmas below show that the calls produce these engines. *)

(** After add_train(name) has spawned the train at [p] and
    update_passengers_count has left the passengers [ps]. *)
Definition added_game (initial_direction : Direction) (name : string)
           (p : pos) (ps : list Passenger) (g : Game) : Game :=
  mkGame (screen_width g + screen_padding g) (screen_height g + screen_padding g)
         (grid_size g) (running g)
         (dict_set name (Train_init initial_direction (fst p) (snd p) name) (trains g))
         ps (screen_padding g) (lock g) (spawn_safe_zone g).

(** After remove_train(name), where update_passengers_count has left the
    passengers [ps]. *)
Definition removed_game (name : string) (ps : list Passenger) (g : Game) : Game :=
  let ts := if dict_mem name (trains g) then dict_pop name (trains g)
            else trains g in
  match ts with
  | [] =>
      mkGame ORIGINAL_SCREEN_WIDTH ORIGINAL_SCREEN_HEIGHT (grid_size g)
             (running g) [] [] (screen_padding g) (lock g) (spawn_safe_zone g)
  | _ :: _ =>
      if can_reduce_padding (set_trains ts g)
      then mkGame (screen_width g - screen_padding g)
                  (screen_height g - screen_padding g) (grid_size g)
                  (running g) ts ps (screen_padding g) (lock g) (spawn_safe_zone g)
      else mkGame (screen_width g) (screen_height g) (grid_size g)
                  (running g) ts ps (screen_padding g) (lock g) (spawn_safe_zone g)
  end.

(** The grid-aligned centre that get_safe_spawn_position falls back to. *)
Definition center_of (g : Game) : pos :=
  (screen_width g / 2 / grid_size g * grid_size g,
   screen_height g / 2 / grid_size g * grid_size g).

(** ** Engine states used in the examples *)

Definition zero_tape : nat -> Z := fun _ => 0.

Definition new_world : World := mkWorld Game_init zero_tape 0 [].

(** One train "A" facing right at (100, 60) in a 300 x 300 world. *)
Definition world_A_100_60 : World :=
  mkWorld (mkGame 300 300 20 true
                  [("A"%string, mkTrain (100, 60) [] RIGHT None true "A"%string)]
                  [mkPassenger (0, 0)] 100 false 3)
          zero_tape 0 [].

(** One train "A" facing right at (160, 60) in a 300 x 300 world. *)
Definition world_A_160_60 : World :=
  mkWorld (mkGame 300 300 20 true
                  [("A"%string, mkTrain (160, 60) [] RIGHT None true "A"%string)]
                  [mkPassenger (0, 0)] 100 false 3)
          zero_tape 0 [].

(** The new engine after add_train("A") on the zero tape: "A" at (60, 60)
    in a 300 x 300 world. *)
Definition world_after_add_A : World := snd (add_train RIGHT "A" new_world).

(** A world of 100 x 100 with no train. *)
Definition small_world : World :=
  mkWorld (set_screen_height 100 (set_screen_width 100 Game_init)) zero_tape 0 [].

(** The engine after add_train("A"), a turn to the left and a tick, a turn
    upwards and a tick, and two remove_train("B"): "A" is at (40, 40). *)
Definition world_after_turns : World :=
  let w1 := snd (change_direction_of_train "A" LEFT world_after_add_A) in
  let w2 := snd (update w1) in
  let w3 := snd (change_direction_of_train "A" UP w2) in
  let w4 := snd (update w3) in
  let w5 := snd (remove_train "B" w4) in
  snd (remove_train "B" w5).

(** A world of 10 x 10, smaller than one grid cell. *)
Definition tiny_world : World :=
  mkWorld (set_screen_height 10 (set_screen_width 10 Game_init)) zero_tape 0 [].

(** ** Runs with direction changes *)

Inductive Command :=
| CmdCall (c : Call)
| CmdTurn (name : string) (d : Direction).

Definition command (initial_direction : Direction) (c : Command) : M unit :=
  match c with
  | CmdCall c' => call initial_direction c'
  | CmdTurn name d => change_direction_of_train name d
  end.

(** The worlds reached from a new engine by add_train, remove_train,
    update and change_direction_of_train, however each call ends. *)
Inductive reachable_steered (initial_direction : Direction) : World -> Prop :=
| steer_init : forall tp,
    reachable_steered initial_direction (mkWorld Game_init tp 0 [])
| steer_command : forall w c,
    reachable_steered initial_direction w ->
    reachable_steered initial_direction (snd (command initial_direction c w)).

(** A run with turns: add_train("A"), a turn to the left and a tick, a
    turn upwards and a tick, and remove_train("B") twice. *)
Definition steered_world : World :=
  snd (command RIGHT (CmdCall (CallRemove "B"))
  (snd (command RIGHT (CmdCall (CallRemove "B"))
  (snd (command RIGHT (CmdCall CallUpdate)
  (snd (command RIGHT (CmdTurn "A" UP)
  (snd (command RIGHT (CmdCall CallUpdate)
  (snd (command RIGHT (CmdTurn "A" LEFT)
  (snd (command RIGHT (CmdCall (CallAdd "A"))
                (mkWorld Game_init zero_tape 0 [])))))))))))))).

(** What no call changes: the configuration of a new engine, a square
    world, and a width that differs from the original one by whole
    paddings. *)
Definition Steady (g : Game) : Prop :=
  grid_size g = 20 /\ screen_padding g = 100 /\ spawn_safe_zone g = 3 /\
  running g = true /\
  screen_height g = screen_width g /\
  (100 | screen_width g - ORIGINAL_SCREEN_WIDTH).

(** A head with both coordinates at least [m]. *)
Definition head_from (m : Z) (t : Train) : Prop :=
  m <= fst (position t) /\ m <= snd (position t).

(** A call that leaves the engine and the trace as they are, however it
    ends. *)
Definition reads_only {A} (c : M A) : Prop :=
  forall w, game (snd (c w)) = game w /\ trace (snd (c w)) = trace w.

(** The configuration fields of two engines are the same. *)
Definition same_config (g g' : Game) : Prop :=
  grid_size g' = grid_size g /\ screen_padding g' = screen_padding g /\
  spawn_safe_zone g' = spawn_safe_zone g /\ running g' = running g.

(** The engine after one turn of the first loop of update, for a train
    [t] stored under [name]. *)
Definition ticked_game (name : string) (t : Train) (g : Game) : Game :=
  let moved := Train_update t (passengers g) (grid_size g) in
  set_passengers
    (snd moved)
    (set_trains (Train_mark_head_on (fst moved)
                                    (dict_set name (fst moved) (trains g))) g).

(** A head inside the world. *)
Definition inside (g : Game) (t : Train) : Prop :=
  0 <= fst (position t) < screen_width g /\
  0 <= snd (position t) < screen_height g.

(** The train map during a tick: every head is at most one cell of 20 out
    on the top and left sides, and the trains that are not flagged for
    removal are inside the world. *)
Definition marked (flagged : list string) (g : Game) : Prop :=
  forall k t, dict_get k (trains g) = Some t ->
              head_from (-20) t /\ (~ In k flagged -> inside g t).

(** Between calls: the standing configuration, a width of at least 100, a
    map with each name once and every head inside the world. *)
Definition Floor (g : Game) : Prop :=
  Steady g /\ 100 <= screen_width g /\
  NoDup (dict_keys (trains g)) /\ marked [] g.

(** The world in which the body of [with self.lock:] starts. *)
Definition after_acquire (w : World) : World :=
  mkWorld (set_lock true (game w)) (tape w) (cursor w) (trace w ++ [Acquire]).

(** Two trains about to meet head-on at (80, 200) in a 400 x 400 world. *)
Definition head_on_world : World :=
  mkWorld (mkGame 400 400 20 true
                  [("A"%string, mkTrain (60, 200) [] RIGHT None true "A"%string);
                   ("B"%string, mkTrain (100, 200) [] LEFT None true "B"%string)]
                  [mkPassenger (0, 0)] 100 false 3)
          zero_tape 0 [].

(** * Properties *)

(** Reduction of record projections only, leaving the arithmetic alone. *)
Ltac fields :=
  cbn [screen_width screen_height grid_size running trains passengers
       screen_padding lock spawn_safe_zone game tape cursor trace
       position wagons direction new_direction alive agent_name fst snd
       set_screen_width set_screen_height set_trains set_passengers set_lock].


(** ** Records and dictionaries *)

Lemma set_passengers_same (g : Game) : set_passengers (passengers g) g = g.
Proof. destruct g; reflexivity. Qed.

Lemma dict_set_keys {V} (k : string) (v : V) (d : dict V) :
  dict_mem k d = true -> dict_keys (dict_set k v d) = dict_keys d.
Proof.
  unfold dict_mem, dict_keys.
  induction d as [|[k' v'] d IH]; simpl; [discriminate|].
  destruct (String.eqb k k') eqn:E; simpl; intros H; [reflexivity|].
  f_equal; apply IH; exact H.
Qed.

Lemma dict_get_set {V} (k : string) (v : V) (d : dict V) :
  dict_get k (dict_set k v d) = Some v.
Proof.
  induction d as [|[k' v'] d IH]; simpl.
  - rewrite String.eqb_refl; reflexivity.
  - destruct (String.eqb k k') eqn:E; simpl; rewrite E; [reflexivity | exact IH].
Qed.

Lemma dict_set_values {V} (P : V -> Prop) (k : string) (v : V) (d : dict V) :
  P v -> Forall P (dict_values d) -> Forall P (dict_values (dict_set k v d)).
Proof.
  unfold dict_values; intros Hv.
  induction d as [|[k' v'] d IH]; simpl; intros H.
  - constructor; [exact Hv | constructor].
  - inversion H; subst.
    destruct (String.eqb k k'); simpl; constructor; auto.
Qed.

Lemma dict_pop_values {V} (P : V -> Prop) (k : string) (d : dict V) :
  Forall P (dict_values d) -> Forall P (dict_values (dict_pop k d)).
Proof.
  unfold dict_values.
  induction d as [|[k' v'] d IH]; simpl; intros H; [constructor|].
  inversion H; subst.
  destruct (String.eqb k k'); simpl; [assumption | constructor; auto].
Qed.

Lemma dict_get_values {V} (P : V -> Prop) (k : string) (d : dict V) (v : V) :
  Forall P (dict_values d) -> dict_get k d = Some v -> P v.
Proof.
  unfold dict_values.
  induction d as [|[k' v'] d IH]; simpl; intros H E; [discriminate|].
  inversion H; subst.
  destruct (String.eqb k k'); [injection E as <-; assumption | auto].
Qed.

Lemma dict_map_values_keys {V} (f : V -> V) (d : dict V) :
  dict_keys (dict_map_values f d) = dict_keys d.
Proof.
  unfold dict_keys, dict_map_values. rewrite map_map. reflexivity.
Qed.

Lemma dict_get_map_values {V} (f : V -> V) (k : string) (d : dict V) :
  dict_get k (dict_map_values f d) = option_map f (dict_get k d).
Proof.
  unfold dict_map_values.
  induction d as [|[k' v'] d IH]; simpl; [reflexivity|].
  destruct (String.eqb k k'); [reflexivity | exact IH].
Qed.

Lemma dict_map_values_Forall {V} (P : V -> Prop) (f : V -> V) (d : dict V) :
  (forall v, P v -> P (f v)) ->
  Forall P (dict_values d) -> Forall P (dict_values (dict_map_values f d)).
Proof.
  unfold dict_values, dict_map_values. intros Hf.
  induction d as [|[k' v'] d IH]; simpl; intros H; [constructor|].
  inversion H; subst. constructor; auto.
Qed.

(** Marking changes the alive flag only. *)
Lemma Train_mark_head_on_get (t : Train) (k : string) (d : dict Train) (o' : Train) :
  dict_get k (Train_mark_head_on t d) = Some o' ->
  exists o, dict_get k d = Some o /\ (o' = o \/ o' = Train_mark_dead o).
Proof.
  unfold Train_mark_head_on. rewrite dict_get_map_values.
  destruct (dict_get k d) as [o|]; simpl; [|discriminate].
  intros H; injection H as <-. exists o. split; [reflexivity|].
  destruct (negb _ && _); auto.
Qed.

Lemma Train_mark_head_on_keys (t : Train) (d : dict Train) :
  dict_keys (Train_mark_head_on t d) = dict_keys d.
Proof. apply dict_map_values_keys. Qed.

Lemma Train_mark_head_on_Forall (P : Train -> Prop) (t : Train) (d : dict Train) :
  (forall o, P o -> P (Train_mark_dead o)) ->
  Forall P (dict_values d) -> Forall P (dict_values (Train_mark_head_on t d)).
Proof.
  intros Hdead. apply dict_map_values_Forall.
  intros o Ho. destruct (negb _ && _); auto.
Qed.

(** ** The passenger loops *)

Lemma append_passenger_runs (w : World) :
  exists p w1,
    append_passenger w = (Ret tt, w1) /\
    game w1 = set_passengers (passengers (game w) ++ [p]) (game w).
Proof.
  unfold append_passenger, Passenger_init, bind, get_game, draw, mutate, ret.
  simpl. eexists; eexists; split; reflexivity.
Qed.

Lemma pop_passenger_runs (w : World) :
  exists w1,
    pop_passenger w = (Ret tt, w1) /\
    game w1 = set_passengers (removelast (passengers (game w))) (game w).
Proof.
  unfold pop_passenger, mutate. eexists; split; reflexivity.
Qed.

Lemma while_append (d : nat) : forall fuel w,
  (d - List.length (passengers (game w)) <= fuel)%nat ->
  exists added w',
    while fuel (fun g' => Nat.ltb (List.length (passengers g')) d)
          append_passenger w = (Ret tt, w') /\
    game w' = set_passengers (passengers (game w) ++ added) (game w) /\
    List.length (passengers (game w) ++ added)
    = Nat.max (List.length (passengers (game w))) d.
Proof.
  induction fuel as [|fuel IH]; intros w Hfuel; cbn [while];
    destruct (Nat.ltb_spec (List.length (passengers (game w))) d) as [Hlt|Hge].
  - lia.
  - exists [], w. rewrite app_nil_r, set_passengers_same. repeat split; lia.
  - destruct (append_passenger_runs w) as (p & w1 & Hrun & Hg1).
    rewrite Hrun.
    destruct (IH w1) as (added & w' & Hloop & Hg' & Hlen).
    { rewrite Hg1; simpl. rewrite length_app; simpl. lia. }
    exists (p :: added), w'. split; [exact Hloop|].
    rewrite Hg1 in Hg', Hlen; simpl in Hg', Hlen.
    rewrite <- app_assoc in Hg', Hlen; simpl in Hg', Hlen.
    split; [exact Hg'|].
    rewrite Hlen, length_app; simpl; lia.
  - exists [], w. rewrite app_nil_r, set_passengers_same. repeat split; lia.
Qed.

Lemma firstn_removelast {A} (d : nat) (l : list A) :
  (d < List.length l)%nat -> firstn d (removelast l) = firstn d l.
Proof.
  intros H. rewrite removelast_firstn_len, firstn_firstn.
  f_equal; lia.
Qed.

Lemma while_pop (d : nat) : forall fuel w,
  (List.length (passengers (game w)) - d <= fuel)%nat ->
  exists w',
    while fuel (fun g' => Nat.ltb d (List.length (passengers g')))
          pop_passenger w = (Ret tt, w') /\
    game w' = set_passengers (firstn d (passengers (game w))) (game w).
Proof.
  induction fuel as [|fuel IH]; intros w Hfuel; cbn [while];
    destruct (Nat.ltb_spec d (List.length (passengers (game w)))) as [Hlt|Hge].
  - lia.
  - exists w. rewrite firstn_all2 by lia. rewrite set_passengers_same. auto.
  - destruct (pop_passenger_runs w) as (w1 & Hrun & Hg1).
    rewrite Hrun.
    destruct (IH w1) as (w' & Hloop & Hg').
    { rewrite Hg1; simpl. rewrite removelast_firstn_len, length_firstn. lia. }
    exists w'. split; [exact Hloop|].
    rewrite Hg1 in Hg'; simpl in Hg'.
    rewrite firstn_removelast in Hg' by exact Hlt. exact Hg'.
  - exists w. rewrite firstn_all2 by lia. rewrite set_passengers_same. auto.
Qed.

Lemma update_passengers_count_runs (w : World) :
  exists ps' w',
    update_passengers_count w = (Ret tt, w') /\
    game w' = set_passengers ps' (game w) /\
    List.length ps' = desired_passengers (game w) /\
    ((desired_passengers (game w) <= List.length (passengers (game w)))%nat ->
     ps' = firstn (desired_passengers (game w)) (passengers (game w))) /\
    ((List.length (passengers (game w)) <= desired_passengers (game w))%nat ->
     exists added, ps' = passengers (game w) ++ added).
Proof.
  set (d := desired_passengers (game w)).
  destruct (while_append d d w) as (added & w1 & Hloop1 & Hg1 & Hlen1); [lia|].
  destruct (while_pop d (List.length (passengers (game w1))) w1)
    as (w2 & Hloop2 & Hg2); [lia|].
  exists (firstn d (passengers (game w) ++ added)), w2.
  split.
  { unfold update_passengers_count, bind, get_game. fold d.
    rewrite Hloop1, Hloop2. reflexivity. }
  rewrite Hg1 in Hg2; simpl in Hg2.
  split; [exact Hg2|].
  split; [rewrite length_firstn, Hlen1; lia|].
  split.
  - intros Hle.
    assert (added = []) as ->.
    { destruct added; [reflexivity|].
      rewrite length_app in Hlen1; simpl in Hlen1; lia. }
    rewrite app_nil_r; reflexivity.
  - intros Hle. exists added. apply firstn_all2. lia.
Qed.

(** C7: update_passengers_count returns, and afterwards the passenger list
    has max(1, floor(train count / 2)) elements; a list that was too long
    keeps its first elements (only the tail is removed), a list that was
    too short is extended at its end, and nothing but the passenger list
    changes. *)
Theorem update_passengers_count_correct (w : World) :
  exists w',
    update_passengers_count w = (Ret tt, w') /\
    game w' = set_passengers (passengers (game w')) (game w) /\
    List.length (passengers (game w'))
    = Nat.max 1 (Nat.div (List.length (trains (game w))) 2) /\
    ((Nat.max 1 (Nat.div (List.length (trains (game w))) 2)
      < List.length (passengers (game w)))%nat ->
     passengers (game w')
     = firstn (Nat.max 1 (Nat.div (List.length (trains (game w))) 2))
              (passengers (game w))) /\
    ((List.length (passengers (game w))
      < Nat.max 1 (Nat.div (List.length (trains (game w))) 2))%nat ->
     exists added,
       added <> [] /\ passengers (game w') = passengers (game w) ++ added).
Proof.
  destruct (update_passengers_count_runs w)
    as (ps' & w' & Hrun & Hg & Hlen & Hcut & Hext).
  unfold desired_passengers in *.
  exists w'. rewrite Hg; cbn [passengers set_passengers].
  split; [exact Hrun|]. split; [reflexivity|]. split; [exact Hlen|]. split.
  - intros H; apply Hcut; lia.
  - intros H. destruct Hext as (added & ->); [lia|].
    exists added; split; [|reflexivity].
    intros ->. rewrite app_nil_r in Hlen. lia.
Qed.

(** ** The spawn safety test and the shrink test *)

Lemma forallb_false_iff {A} (f : A -> bool) (l : list A) :
  forallb f l = false <-> exists a, In a l /\ f a = false.
Proof.
  induction l as [|a l IH]; simpl.
  - split; [discriminate | intros (a & [] & _)].
  - rewrite andb_false_iff, IH. split.
    + intros [H | (b & Hb & Hf)]; [exists a | exists b]; auto.
    + intros (b & [<- | Hb] & Hf); [left | right; exists b]; auto.
Qed.

Lemma too_close_iff (sd x y : Z) (p : pos) :
  too_close sd x y p = true <->
  Z.abs (fst p - x) < sd /\ Z.abs (snd p - y) < sd.
Proof. unfold too_close. rewrite andb_true_iff, !Z.ltb_lt. reflexivity. Qed.

Lemma near_border_iff (g : Game) (x y : Z) :
  near_border g x y = true <->
  (x < grid_size g * spawn_safe_zone g \/ y < grid_size g * spawn_safe_zone g
   \/ x > screen_width g - grid_size g * spawn_safe_zone g
   \/ y > screen_height g - grid_size g * spawn_safe_zone g).
Proof.
  unfold near_border; cbv zeta.
  rewrite !orb_true_iff, !Z.ltb_lt, !Z.gtb_gt. tauto.
Qed.

Lemma past_threshold_iff (g : Game) (p : pos) :
  past_threshold g p = true <->
  (fst p >= screen_width g - screen_padding g - 50
   \/ snd p >= screen_height g - screen_padding g - 50).
Proof.
  unfold past_threshold. rewrite orb_true_iff, !Z.geb_le. lia.
Qed.

(** The test of one train in either loop is a test of its head and of each
    of its wagons. *)
Lemma train_test_parts (f : pos -> bool) (t : Train) :
  f (position t) && forallb f (wagons t) = forallb f (parts t).
Proof. reflexivity. Qed.

Lemma some_part_false (f : pos -> bool) (ts : list Train) :
  forallb (fun t => f (position t) && forallb f (wagons t)) ts = false <->
  exists t p, In t ts /\ In p (parts t) /\ f p = false.
Proof.
  rewrite forallb_false_iff. split.
  - intros (t & Ht & Hf). rewrite train_test_parts in Hf.
    apply forallb_false_iff in Hf. destruct Hf as (p & Hp & Hfp).
    exists t, p; auto.
  - intros (t & p & Ht & Hp & Hfp). exists t; split; [exact Ht|].
    rewrite train_test_parts. apply forallb_false_iff. exists p; auto.
Qed.

(** C5 (as amended): is_position_safe returns False exactly when the
    candidate is less than the safe distance from a world edge, or when
    some head or wagon is less than the safe distance away on both axes at
    once; one axis distance of at least the safe distance is enough for the
    candidate to be safe with respect to that head or wagon. *)
Theorem is_position_safe_false_iff (g : Game) (x y : Z) :
  is_position_safe g x y = false <->
  ((x < grid_size g * spawn_safe_zone g \/ y < grid_size g * spawn_safe_zone g
    \/ x > screen_width g - grid_size g * spawn_safe_zone g
    \/ y > screen_height g - grid_size g * spawn_safe_zone g)
   \/ exists t p, In t (dict_values (trains g)) /\ In p (parts t) /\
                  Z.abs (fst p - x) < grid_size g * spawn_safe_zone g /\
                  Z.abs (snd p - y) < grid_size g * spawn_safe_zone g).
Proof.
  unfold is_position_safe; cbv zeta.
  rewrite <- near_border_iff.
  destruct (near_border g x y) eqn:Hb.
  - split; auto.
  - rewrite (some_part_false
               (fun p => negb (too_close (grid_size g * spawn_safe_zone g) x y p))).
    split.
    + intros (t & p & Ht & Hp & Hf). right. exists t, p.
      apply negb_false_iff, too_close_iff in Hf. auto.
    + intros [H | (t & p & Ht & Hp & H)]; [discriminate|].
      exists t, p. rewrite negb_false_iff, too_close_iff. auto.
Qed.

(** C6 (as amended): can_reduce_padding returns False exactly when some
    head or wagon has x >= width - screen_padding - 50 or
    y >= height - screen_padding - 50, that is, lies within
    screen_padding + 50 of the right or of the bottom edge; the left and
    top edges are not looked at; it returns True exactly when every head
    and wagon is below both thresholds. *)
Theorem can_reduce_padding_false_iff (g : Game) :
  (can_reduce_padding g = false <->
   exists t p, In t (dict_values (trains g)) /\ In p (parts t) /\
               (screen_width g - fst p <= screen_padding g + 50
                \/ screen_height g - snd p <= screen_padding g + 50))
  /\ (can_reduce_padding g = true <->
      forall t p, In t (dict_values (trains g)) -> In p (parts t) ->
                  fst p < screen_width g - screen_padding g - 50
                  /\ snd p < screen_height g - screen_padding g - 50).
Proof.
  assert (Hfalse :
            can_reduce_padding g = false <->
            exists t p, In t (dict_values (trains g)) /\ In p (parts t) /\
                        (screen_width g - fst p <= screen_padding g + 50
                         \/ screen_height g - snd p <= screen_padding g + 50)).
  { unfold can_reduce_padding.
    rewrite (some_part_false (fun p => negb (past_threshold g p))).
    split; intros (t & p & Ht & Hp & H); exists t, p; split; auto; split; auto.
    - apply negb_false_iff, past_threshold_iff in H. lia.
    - apply negb_false_iff, past_threshold_iff. lia. }
  split; [exact Hfalse|].
  split.
  - intros Htrue t p Ht Hp.
    destruct (Z_lt_ge_dec (fst p) (screen_width g - screen_padding g - 50))
      as [Hx|Hx];
      [destruct (Z_lt_ge_dec (snd p) (screen_height g - screen_padding g - 50))
        as [Hy|Hy]; [auto|] |];
      (assert (Hno : can_reduce_padding g = false)
        by (apply Hfalse; exists t, p; repeat split; auto; lia));
      congruence.
  - intros Hall. destruct (can_reduce_padding g) eqn:Ecan; [reflexivity|].
    destruct (proj1 Hfalse eq_refl) as (t & p & Ht & Hp & Hnear).
    specialize (Hall t p Ht Hp). lia.
Qed.

(** ** The spawn search *)

Lemma bind_ret {A B} (c : M A) (k : A -> M B) (w w' : World) (a : A) :
  c w = (Ret a, w') -> bind c k w = k a w'.
Proof. unfold bind; intros ->; reflexivity. Qed.

Lemma floordiv_runs (a b : Z) (w : World) :
  b <> 0 -> floordiv a b w = (Ret (a / b), w).
Proof.
  intros Hb. unfold floordiv.
  destruct (Z.eqb_spec b 0); [contradiction | reflexivity].
Qed.

Lemma randint_runs (a b : Z) (w : World) :
  a <= b ->
  exists v w',
    randint a b w = (Ret v, w') /\ game w' = game w /\ trace w' = trace w /\
    a <= v <= b.
Proof.
  intros Hab. unfold randint.
  destruct (Z.leb_spec a b); [|lia].
  eexists; eexists; split; [reflexivity|]. simpl.
  repeat split; auto;
    pose proof (Z.mod_pos_bound (tape w (cursor w)) (b - a + 1)); lia.
Qed.

Lemma spawn_attempts_runs (n : nat) : forall w,
  spawn_ranges_ok (game w) ->
  exists r w',
    spawn_attempts n w = (Ret r, w') /\ game w' = game w /\ trace w' = trace w /\
    (forall p, r = Some p -> is_position_safe (game w) (fst p) (snd p) = true).
Proof.
  induction n as [|n IH]; intros w Hok; cbn [spawn_attempts].
  - exists None, w. repeat split; auto; discriminate.
  - pose proof Hok as (Hgrid & Hx & Hy).
    erewrite bind_ret by reflexivity.
    erewrite bind_ret by (apply floordiv_runs; exact Hgrid).
    destruct (randint_runs _ _ w Hx) as (cx & w1 & Hr1 & Hg1 & Ht1 & _).
    erewrite bind_ret by exact Hr1.
    erewrite bind_ret by (apply floordiv_runs; exact Hgrid).
    destruct (randint_runs _ _ w1 Hy) as (cy & w2 & Hr2 & Hg2 & Ht2 & _).
    erewrite bind_ret by exact Hr2.
    cbv zeta.
    destruct (is_position_safe (game w) (cx * grid_size (game w))
                               (cy * grid_size (game w))) eqn:Hsafe.
    + eexists; exists w2. split; [reflexivity|].
      repeat split; try congruence.
      intros p Hp; injection Hp as <-; exact Hsafe.
    + destruct (IH w2) as (r & w' & Hrun & Hg' & Ht' & Hr).
      { rewrite Hg2, Hg1; exact Hok. }
      exists r, w'. split; [exact Hrun|].
      repeat split; try congruence.
      intros p Hp. specialize (Hr p Hp). rewrite Hg2, Hg1 in Hr. exact Hr.
Qed.

Lemma center_position_runs (w : World) :
  grid_size (game w) <> 0 -> center_position w = (Ret (center_of (game w)), w).
Proof.
  intros Hgrid. unfold center_position.
  erewrite bind_ret by reflexivity.
  erewrite bind_ret by (apply floordiv_runs; lia).
  erewrite bind_ret by (apply floordiv_runs; exact Hgrid).
  erewrite bind_ret by (apply floordiv_runs; lia).
  erewrite bind_ret by (apply floordiv_runs; exact Hgrid).
  reflexivity.
Qed.

Lemma get_safe_spawn_position_runs (n : nat) (w : World) :
  spawn_ranges_ok (game w) ->
  exists p w',
    get_safe_spawn_position n w = (Ret p, w') /\
    game w' = game w /\ trace w' = trace w /\
    (is_position_safe (game w) (fst p) (snd p) = true \/ p = center_of (game w)).
Proof.
  intros Hok.
  destruct (spawn_attempts_runs n w Hok) as (r & w' & Hrun & Hg & Ht & Hr).
  unfold get_safe_spawn_position. erewrite bind_ret by exact Hrun.
  destruct r as [p|].
  - exists p, w'. repeat split; auto.
  - exists (center_of (game w)), w'.
    rewrite center_position_runs by (rewrite Hg; apply Hok).
    rewrite Hg. repeat split; auto.
Qed.

(** ** add_train and remove_train in closed form *)

Lemma add_train_runs (d0 : Direction) (name : string) (w : World) :
  lock (game w) = false ->
  spawn_ranges_ok (game w) ->
  exists p ps w',
    add_train d0 name w = (Ret tt, w') /\
    game w' = added_game d0 name p ps (game w) /\
    (is_position_safe (game w) (fst p) (snd p) = true \/ p = center_of (game w)) /\
    List.length ps
    = Nat.max 1 (Nat.div (List.length
                            (dict_set name (Train_init d0 (fst p) (snd p) name)
                                      (trains (game w)))) 2).
Proof.
  intros Hlock Hok.
  set (w1 := mkWorld (set_lock true (game w)) (tape w) (cursor w)
                     (trace w ++ [Acquire])).
  destruct (get_safe_spawn_position_runs 100 w1 Hok)
    as (p & w2 & Hsp & Hg2 & Ht2 & Hp).
  set (w3 := mkWorld (set_trains
                        (dict_set name (Train_init d0 (fst p) (snd p) name)
                                  (trains (game w2))) (game w2))
                     (tape w2) (cursor w2) (trace w2 ++ [Mutate FTrains])).
  destruct (update_passengers_count_runs w3) as (ps & w4 & Hupc & Hg4 & Hlen & _).
  exists p, ps. eexists. split.
  { unfold add_train. erewrite bind_ret; [reflexivity|].
    unfold with_lock, acquire. rewrite Hlock. fold w1.
    erewrite bind_ret by exact Hsp.
    erewrite bind_ret by reflexivity.
    cbv beta. fold w3. rewrite Hupc. reflexivity. }
  split; [|split; [exact Hp|]].
  - simpl. rewrite Hg4. subst w3. simpl. rewrite Hg2. subst w1. simpl.
    unfold added_game. rewrite Hlock. reflexivity.
  - rewrite Hlen. subst w3. unfold desired_passengers. simpl.
    rewrite Hg2. reflexivity.
Qed.

Lemma dict_set_length_present {V} (k : string) (v : V) (d : dict V) :
  dict_mem k d = true -> List.length (dict_set k v d) = List.length d.
Proof.
  intros Hmem.
  assert (H : List.length (dict_keys (dict_set k v d)) = List.length (dict_keys d))
    by (rewrite dict_set_keys by exact Hmem; reflexivity).
  unfold dict_keys in H. rewrite !length_map in H. exact H.
Qed.

(** add_train in closed form, with the spawn search that gives the
    position and what update_passengers_count does to the passengers. *)
Lemma add_train_runs_full (d0 : Direction) (name : string) (w : World) :
  lock (game w) = false ->
  spawn_ranges_ok (game w) ->
  exists p ps w',
    fst (get_safe_spawn_position 100 (after_acquire w)) = Ret p /\
    add_train d0 name w = (Ret tt, w') /\
    game w' = added_game d0 name p ps (game w) /\
    (is_position_safe (game w) (fst p) (snd p) = true \/ p = center_of (game w)) /\
    List.length ps
    = Nat.max 1 (Nat.div (List.length
                            (dict_set name (Train_init d0 (fst p) (snd p) name)
                                      (trains (game w)))) 2) /\
    ((List.length ps <= List.length (passengers (game w)))%nat ->
     ps = firstn (List.length ps) (passengers (game w))) /\
    ((List.length (passengers (game w)) <= List.length ps)%nat ->
     exists added, ps = passengers (game w) ++ added).
Proof.
  intros Hlock Hok.
  set (w1 := after_acquire w).
  destruct (get_safe_spawn_position_runs 100 w1 Hok)
    as (p & w2 & Hsp & Hg2 & Ht2 & Hp).
  set (w3 := mkWorld (set_trains
                        (dict_set name (Train_init d0 (fst p) (snd p) name)
                                  (trains (game w2))) (game w2))
                     (tape w2) (cursor w2) (trace w2 ++ [Mutate FTrains])).
  destruct (update_passengers_count_runs w3)
    as (ps & w4 & Hupc & Hg4 & Hlen & Hcut & Hext).
  assert (Hold : passengers (game w3) = passengers (game w))
    by (subst w3; cbn [game passengers set_trains]; rewrite Hg2; reflexivity).
  exists p, ps. eexists.
  split; [rewrite Hsp; reflexivity|]. split.
  { unfold add_train. erewrite bind_ret; [reflexivity|].
    unfold with_lock, acquire. rewrite Hlock.
    change (mkWorld (set_lock true (game w)) (tape w) (cursor w)
                    (trace w ++ [Acquire])) with w1.
    erewrite bind_ret by exact Hsp.
    erewrite bind_ret by reflexivity.
    cbv beta. fold w3. rewrite Hupc. reflexivity. }
  split.
  { simpl. rewrite Hg4. subst w3. simpl. rewrite Hg2. subst w1. simpl.
    unfold added_game. rewrite Hlock. reflexivity. }
  split; [exact Hp|].
  assert (Hlen' : List.length ps
                  = Nat.max 1 (Nat.div (List.length
                                          (dict_set name (Train_init d0 (fst p) (snd p) name)
                                                    (trains (game w)))) 2)).
  { rewrite Hlen. subst w3. unfold desired_passengers. simpl.
    rewrite Hg2. reflexivity. }
  split; [exact Hlen'|].
  rewrite Hold in Hcut, Hext. rewrite <- Hlen in Hcut, Hext.
  split; [exact Hcut | exact Hext].
Qed.

Lemma remove_train_runs (name : string) (w : World) :
  exists ps w',
    remove_train name w = (Ret tt, w') /\
    game w' = removed_game name ps (game w) /\
    List.length ps
    = Nat.max 1 (Nat.div (List.length
                            ((if dict_mem name (trains (game w))
                              then dict_pop name (trains (game w))
                              else trains (game w)) : dict Train)) 2).
Proof.
  unfold remove_train, removed_game.
  erewrite bind_ret by reflexivity.
  set (ts := if dict_mem name (trains (game w))
             then dict_pop name (trains (game w)) else trains (game w)).
  assert (exists w1, (if dict_mem name (trains (game w))
                      then mutate FTrains
                             (fun g' => set_trains (dict_pop name (trains g')) g')
                      else ret tt) w = (Ret tt, w1)
                     /\ game w1 = set_trains ts (game w)) as (w1 & Hpop & Hg1).
  { subst ts. destruct (dict_mem name (trains (game w))).
    - eexists; split; reflexivity.
    - exists w; split; [reflexivity|]. destruct (game w); reflexivity. }
  erewrite bind_ret by exact Hpop.
  destruct (update_passengers_count_runs w1) as (ps & w2 & Hupc & Hg2 & Hlen & _).
  erewrite bind_ret by exact Hupc.
  erewrite bind_ret by reflexivity.
  rewrite Hg1 in Hg2, Hlen.
  exists ps.
  assert (Hts : trains (game w2) = ts) by (rewrite Hg2; reflexivity).
  assert (Hcan : can_reduce_padding (game w2)
                 = can_reduce_padding (set_trains ts (game w)))
    by (rewrite Hg2; reflexivity).
  rewrite Hts.
  destruct ts as [|kv ts'] eqn:Ets.
  - eexists. split; [reflexivity|]. split; [|exact Hlen].
    simpl. rewrite Hg2. reflexivity.
  - cbn [List.length Nat.ltb Nat.leb].
    unfold reduce_padding. rewrite Hcan.
    destruct (can_reduce_padding (set_trains (kv :: ts') (game w))) eqn:Ecan.
    + erewrite bind_ret by reflexivity. rewrite Hcan.
      eexists. split; [reflexivity|]. split; [|exact Hlen].
      simpl. rewrite Hg2. reflexivity.
    + exists w2. split; [reflexivity|]. split; [|exact Hlen].
      rewrite Hg2. reflexivity.
Qed.

Lemma set_trains_same (g : Game) : set_trains (trains g) g = g.
Proof. destruct g; reflexivity. Qed.

Lemma dict_get_set_other {V} (k k' : string) (v : V) (d : dict V) :
  k' <> k -> dict_get k' (dict_set k v d) = dict_get k' d.
Proof.
  intros Hne. induction d as [|[k0 v0] d IH]; simpl.
  - destruct (String.eqb_spec k' k); [contradiction | reflexivity].
  - destruct (String.eqb_spec k k0) as [->|Hk]; simpl.
    + destruct (String.eqb_spec k' k0); [contradiction | reflexivity].
    + destruct (String.eqb k' k0); [reflexivity | exact IH].
Qed.

(** ** Single calls *)

(** C2 (as amended): for a name that is not in the train map, remove_train
    raises nothing and leaves the train map as it is, but it still
    re-balances the passengers and resizes the world: with no train at all
    the passenger list is emptied and the bounds are set to the original
    minimums; with trains left the passenger list gets
    max(1, floor(train count / 2)) elements and width and height lose one
    screen_padding when can_reduce_padding holds, and keep their values
    otherwise. *)
Theorem remove_absent_train (name : string) (w : World) :
  dict_mem name (trains (game w)) = false ->
  exists w',
    remove_train name w = (Ret tt, w') /\
    trains (game w') = trains (game w) /\
    (trains (game w) = [] ->
     passengers (game w') = [] /\
     screen_width (game w') = ORIGINAL_SCREEN_WIDTH /\
     screen_height (game w') = ORIGINAL_SCREEN_HEIGHT) /\
    (trains (game w) <> [] ->
     List.length (passengers (game w'))
     = Nat.max 1 (Nat.div (List.length (trains (game w))) 2) /\
     if can_reduce_padding (game w)
     then screen_width (game w') = screen_width (game w) - screen_padding (game w)
          /\ screen_height (game w') = screen_height (game w) - screen_padding (game w)
     else screen_width (game w') = screen_width (game w)
          /\ screen_height (game w') = screen_height (game w)).
Proof.
  intros Habsent.
  destruct (remove_train_runs name w) as (ps & w' & Hrun & Hg & Hlen).
  exists w'. split; [exact Hrun|].
  rewrite Hg. unfold removed_game. rewrite Habsent in *.
  rewrite set_trains_same.
  destruct (trains (game w)) as [|kv ts] eqn:Ets.
  - simpl. split; [reflexivity|]. split; [auto|]. intros Hne; congruence.
  - destruct (can_reduce_padding (game w)); simpl;
      (split; [reflexivity|]); (split; [discriminate|]); intros _; auto.
Qed.

Lemma remove_absent_train_witness :
  exists w',
    remove_train "B" world_after_add_A = (Ret tt, w') /\
    trains (game w') = trains (game world_after_add_A) /\
    screen_width (game w') = 200 /\ screen_height (game w') = 200.
Proof.
  destruct (remove_absent_train "B" world_after_add_A) as (w' & Hrun & Ht & _ & H);
    [reflexivity|].
  exists w'. split; [exact Hrun|]. split; [exact Ht|].
  destruct H as (_ & H); [discriminate|]. exact H.
Defined.

(** C2 (as stated) fails: after add_train("A") on a new engine the world
    is 300 x 300 with "A" at (60, 60); remove_train("B") then shrinks it to
    200 x 200. *)
Lemma remove_absent_train_not_noop :
  ~ remove_absent_noop "B" world_after_add_A.
Proof.
  intros H. destruct H as (_ & _ & _ & Hw & _); [reflexivity|].
  vm_compute in Hw. discriminate.
Qed.

(** When the lock is free, grid_size is not 0 and both spawn ranges are
    non-empty (spawn_safe_zone <= width // grid_size - spawn_safe_zone, and
    the same for the height), get_safe_spawn_position returns a position,
    safe or the grid-aligned centre, and add_train returns without
    raising. *)
Theorem add_train_completes (d0 : Direction) (name : string) (w : World) :
  lock (game w) = false ->
  spawn_ranges_ok (game w) ->
  (exists p w1,
      get_safe_spawn_position 100 w = (Ret p, w1) /\
      (is_position_safe (game w) (fst p) (snd p) = true
       \/ p = center_of (game w))) /\
  exists w', add_train d0 name w = (Ret tt, w').
Proof.
  intros Hlock Hok. split.
  - destruct (get_safe_spawn_position_runs 100 w Hok) as (p & w1 & Hrun & _ & _ & Hp).
    exists p, w1. auto.
  - destruct (add_train_runs d0 name w Hlock Hok) as (p & ps & w' & Hrun & _).
    exists w'. exact Hrun.
Qed.

Lemma add_train_completes_witness :
  (exists p w1,
      get_safe_spawn_position 100 new_world = (Ret p, w1) /\
      (is_position_safe (game new_world) (fst p) (snd p) = true
       \/ p = center_of (game new_world))) /\
  exists w', add_train RIGHT "A" new_world = (Ret tt, w').
Proof.
  apply (add_train_completes RIGHT "A" new_world).
  - reflexivity.
  - unfold spawn_ranges_ok. simpl. repeat split; [discriminate | lia | lia].
Defined.

(** In a world of 100 x 100 the spawn range is randint(3, 2), so
    get_safe_spawn_position and add_train raise ValueError. *)
Lemma add_train_raises_in_small_world :
  ~ add_train_returns RIGHT "A" small_world
  /\ fst (get_safe_spawn_position 100 small_world) = Raise ValueError
  /\ fst (add_train RIGHT "A" small_world) = Raise ValueError.
Proof.
  split; [|split; reflexivity].
  unfold add_train_returns. vm_compute. discriminate.
Qed.

(** C4 (as amended): add_train on a name that is already in the map is
    not a no-op: when the lock is free and the spawn ranges are non-empty
    it returns without raising; the name now maps to a new train with no
    wagon at the position that get_safe_spawn_position returns under the
    lock (a safe one, or the centre); the names of the map and the other
    trains are as before; the passengers are re-balanced to
    max(1, floor(n / 2)) for the n trains of the map, by cutting the tail
    of the list or by appending to it; and width and height have grown by
    one screen_padding. *)
Theorem add_present_train (d0 : Direction) (name : string) (w : World) :
  lock (game w) = false ->
  spawn_ranges_ok (game w) ->
  dict_mem name (trains (game w)) = true ->
  exists p w',
    add_train d0 name w = (Ret tt, w') /\
    fst (get_safe_spawn_position 100 (after_acquire w)) = Ret p /\
    (is_position_safe (game w) (fst p) (snd p) = true \/ p = center_of (game w)) /\
    dict_get name (trains (game w')) = Some (Train_init d0 (fst p) (snd p) name) /\
    dict_keys (trains (game w')) = dict_keys (trains (game w)) /\
    (forall other, other <> name ->
                   dict_get other (trains (game w')) = dict_get other (trains (game w))) /\
    List.length (passengers (game w'))
    = Nat.max 1 (Nat.div (List.length (trains (game w))) 2) /\
    ((Nat.max 1 (Nat.div (List.length (trains (game w))) 2)
      <= List.length (passengers (game w)))%nat ->
     passengers (game w')
     = firstn (Nat.max 1 (Nat.div (List.length (trains (game w))) 2))
              (passengers (game w))) /\
    ((List.length (passengers (game w))
      <= Nat.max 1 (Nat.div (List.length (trains (game w))) 2))%nat ->
     exists added, passengers (game w') = passengers (game w) ++ added) /\
    screen_width (game w') = screen_width (game w) + screen_padding (game w) /\
    screen_height (game w') = screen_height (game w) + screen_padding (game w).
Proof.
  intros Hlock Hok Hmem.
  destruct (add_train_runs_full d0 name w Hlock Hok)
    as (p & ps & w' & Hsp & Hrun & Hg & Hp & Hlen & Hcut & Hext).
  rewrite dict_set_length_present in Hlen by exact Hmem.
  exists p, w'. rewrite Hg. unfold added_game; fields.
  split; [exact Hrun|]. split; [exact Hsp|]. split; [exact Hp|].
  split; [apply dict_get_set|].
  split; [apply dict_set_keys; exact Hmem|].
  split; [intros other Hne; apply dict_get_set_other; exact Hne|].
  split; [exact Hlen|].
  rewrite <- Hlen.
  split; [exact Hcut|]. split; [exact Hext|].
  split; reflexivity.
Qed.

Lemma add_present_train_witness :
  exists p w',
    add_train RIGHT "A" world_after_add_A = (Ret tt, w') /\
    fst (get_safe_spawn_position 100 (after_acquire world_after_add_A)) = Ret p /\
    dict_get "A" (trains (game w')) = Some (Train_init RIGHT (fst p) (snd p) "A") /\
    List.length (passengers (game w')) = 1%nat /\
    screen_width (game w') = 400.
Proof.
  destruct (add_present_train RIGHT "A" world_after_add_A)
    as (p & w' & Hrun & Hsp & _ & Hget & _ & _ & Hlen & _ & _ & Hw & _).
  - reflexivity.
  - unfold spawn_ranges_ok. simpl. repeat split; [discriminate | lia | lia].
  - reflexivity.
  - exists p, w'. auto.
Defined.

(** C4 (as stated) fails: with "A" at (60, 60) in the 300 x 300 world, a
    second add_train("A") on the zero tape finds no safe cell and puts the
    new "A" at the centre (140, 140). *)
Lemma add_present_train_overwrites :
  ~ add_present_noop RIGHT "A" world_after_add_A
  /\ dict_get "A" (trains (game world_after_add_A))
     = Some (mkTrain (60, 60) [] RIGHT None true "A")
  /\ dict_get "A" (trains (game (snd (add_train RIGHT "A" world_after_add_A))))
     = Some (mkTrain (140, 140) [] RIGHT None true "A").
Proof.
  split; [|split; vm_compute; reflexivity].
  intros H. destruct H as (_ & H); [reflexivity|].
  vm_compute in H. discriminate.
Qed.

(** C8: on an engine with no train, free lock and non-empty spawn ranges
    (the new engine is one), add_train(name) returns and leaves exactly one
    train, under that name, one passenger, and a width and a height grown
    by exactly one screen_padding. *)
Theorem add_first_train (d0 : Direction) (name : string) (w : World) :
  trains (game w) = [] ->
  lock (game w) = false ->
  spawn_ranges_ok (game w) ->
  exists p w',
    add_train d0 name w = (Ret tt, w') /\
    trains (game w') = [(name, Train_init d0 (fst p) (snd p) name)] /\
    List.length (passengers (game w')) = 1%nat /\
    screen_width (game w') = screen_width (game w) + screen_padding (game w) /\
    screen_height (game w') = screen_height (game w) + screen_padding (game w).
Proof.
  intros Hnone Hlock Hok.
  destruct (add_train_runs d0 name w Hlock Hok) as (p & ps & w' & Hrun & Hg & _ & Hlen).
  exists p, w'. rewrite Hg. unfold added_game; simpl.
  rewrite Hnone in *. simpl in *.
  repeat split; auto.
Qed.

Lemma add_first_train_witness :
  exists p w',
    add_train RIGHT "A" new_world = (Ret tt, w') /\
    trains (game w') = [("A"%string, Train_init RIGHT (fst p) (snd p) "A")] /\
    List.length (passengers (game w')) = 1%nat /\
    screen_width (game w') = 300 /\
    screen_height (game w') = 300.
Proof.
  apply (add_first_train RIGHT "A" new_world).
  - reflexivity.
  - reflexivity.
  - unfold spawn_ranges_ok. simpl. repeat split; [discriminate | lia | lia].
Defined.

(** C9: when the map holds exactly one train, remove_train on its name
    returns, empties the train map and the passenger list and sets width
    and height to the original minimums, whatever they were. *)
Theorem remove_last_train (name : string) (t : Train) (w : World) :
  trains (game w) = [(name, t)] ->
  exists w',
    remove_train name w = (Ret tt, w') /\
    trains (game w') = [] /\
    passengers (game w') = [] /\
    screen_width (game w') = ORIGINAL_SCREEN_WIDTH /\
    screen_height (game w') = ORIGINAL_SCREEN_HEIGHT.
Proof.
  intros Hone.
  destruct (remove_train_runs name w) as (ps & w' & Hrun & Hg & _).
  exists w'. split; [exact Hrun|].
  rewrite Hg. unfold removed_game, dict_mem. rewrite Hone. simpl.
  rewrite String.eqb_refl. simpl. auto.
Qed.

Lemma remove_last_train_witness :
  exists w',
    remove_train "A" world_after_add_A = (Ret tt, w') /\
    trains (game w') = [] /\
    passengers (game w') = [] /\
    screen_width (game w') = ORIGINAL_SCREEN_WIDTH /\
    screen_height (game w') = ORIGINAL_SCREEN_HEIGHT.
Proof.
  apply (remove_last_train "A" (mkTrain (60, 60) [] RIGHT None true "A")
                           world_after_add_A).
  reflexivity.
Defined.

(** C5 (as stated) fails: in the 300 x 300 world with "A" at (100, 60) the
    candidate (100, 200) is 100 or more away from every edge and 140 away
    from "A" on the y axis, so the code calls it safe, although its x
    distance to "A" is 0. *)
Lemma is_position_safe_not_as_worded :
  ~ (is_position_safe (game world_A_100_60) 100 200 = false
     <-> worded_unsafe (game world_A_100_60) 100 200).
Proof.
  intros [_ H].
  assert (Hsafe : is_position_safe (game world_A_100_60) 100 200 = true)
    by reflexivity.
  rewrite H in Hsafe; [discriminate|].
  right. exists (mkTrain (100, 60) [] RIGHT None true "A"), (100, 60).
  simpl. split; [auto|]. split; [auto|]. lia.
Qed.

(** C6 (as stated) fails: in the 300 x 300 world with "A" at (160, 60) the
    head is 140 from the right edge and 240 from the bottom edge, more than
    screen_padding - 50 = 50, and yet can_reduce_padding returns False,
    because 160 >= 300 - 100 - 50. Reading the 50 as a number of grid cells
    does not help: with "A" at (60, 60) in the 300 x 300 world the head is
    within 50 cells of both edges and can_reduce_padding returns True. *)
Lemma can_reduce_padding_not_as_worded :
  ~ (can_reduce_padding (game world_A_160_60) = false
     <-> worded_blocked 1 (game world_A_160_60))
  /\ ~ (can_reduce_padding (game world_after_add_A) = false
        <-> worded_blocked (grid_size (game world_after_add_A))
                           (game world_after_add_A)).
Proof.
  split.
  - intros [H _].
    destruct H as (t & p & Ht & Hp & Hnear); [reflexivity|].
    simpl in Ht. destruct Ht as [<-|[]].
    simpl in Hp. destruct Hp as [<-|[]].
    simpl in Hnear. lia.
  - intros [_ H].
    assert (Hcan : can_reduce_padding (game world_after_add_A) = true)
      by reflexivity.
    rewrite H in Hcan; [discriminate Hcan|].
    exists (mkTrain (60, 60) [] RIGHT None true "A"), (60, 60).
    split; [left; reflexivity|]. split; [left; reflexivity|].
    left. vm_compute. discriminate.
Qed.

(** ** The invariant of the reachable worlds *)

Lemma Inv_init : Inv Game_init.
Proof.
  unfold Inv; simpl. repeat split; try reflexivity.
  - exists 0. split; [lia | reflexivity].
  - constructor.
Qed.

Lemma Inv_spawn_ranges (g : Game) : Inv g -> spawn_ranges_ok g.
Proof.
  intros (Hgrid & _ & Hzone & Hsq & (k & Hk & Hw) & _).
  unfold spawn_ranges_ok. rewrite Hsq, Hgrid, Hzone, Hw.
  split; [discriminate|].
  assert (10 <= (200 + 100 * k) / 20) by (apply Z.div_le_lower_bound; lia).
  lia.
Qed.

Lemma safe_position_far_from_origin (g : Game) (x y : Z) :
  is_position_safe g x y = true ->
  grid_size g * spawn_safe_zone g <= x /\ grid_size g * spawn_safe_zone g <= y.
Proof.
  unfold is_position_safe; cbv zeta.
  destruct (near_border g x y) eqn:Hb; [discriminate|]. intros _.
  unfold near_border in Hb; cbv zeta in Hb.
  rewrite !orb_false_iff, !Z.ltb_ge in Hb. tauto.
Qed.

Lemma center_far_from_origin (g : Game) :
  Inv g -> 60 <= fst (center_of g) /\ 60 <= snd (center_of g).
Proof.
  intros (Hgrid & _ & _ & Hsq & (k & Hk & Hw) & _).
  unfold center_of; simpl. rewrite Hsq, Hgrid, Hw.
  assert (100 <= (200 + 100 * k) / 2) by (apply Z.div_le_lower_bound; lia).
  assert (5 <= (200 + 100 * k) / 2 / 20) by (apply Z.div_le_lower_bound; lia).
  lia.
Qed.

Lemma Train_init_anchored (d0 : Direction) (x y : Z) (name : string) :
  60 <= x -> 60 <= y -> anchored (Train_init d0 x y name).
Proof.
  intros Hx Hy. unfold anchored, Train_init; simpl.
  split; [reflexivity | destruct d0; assumption].
Qed.

Lemma Train_update_anchored (t : Train) (ps : list Passenger) (grid : Z) :
  anchored t -> anchored (fst (Train_update t ps grid)).
Proof.
  intros (Hpending & Hkeep). unfold Train_update. rewrite Hpending.
  destruct (existsb _ ps); unfold anchored; simpl;
    (split; [reflexivity|]);
    destruct (direction t); simpl; lia.
Qed.

Lemma add_train_Inv (d0 : Direction) (name : string) (w : World) :
  Inv (game w) -> lock (game w) = false ->
  exists w',
    add_train d0 name w = (Ret tt, w') /\ Inv (game w') /\ lock (game w') = false.
Proof.
  intros HI Hlock.
  destruct (add_train_runs d0 name w Hlock (Inv_spawn_ranges _ HI))
    as (p & ps & w' & Hrun & Hg & Hp & _).
  exists w'. split; [exact Hrun|]. rewrite Hg.
  split; [|exact Hlock].
  assert (Hfar : 60 <= fst p /\ 60 <= snd p).
  { destruct Hp as [Hsafe | ->].
    - apply safe_position_far_from_origin in Hsafe.
      destruct HI as (Hgrid & _ & Hzone & _). rewrite Hgrid, Hzone in Hsafe. lia.
    - apply center_far_from_origin; exact HI. }
  destruct HI as (Hgrid & Hpad & Hzone & Hsq & (k & Hk & Hw) & Hts).
  unfold Inv, added_game; fields.
  repeat split; auto; try lia.
  - exists (k + 1). lia.
  - apply dict_set_values; [|exact Hts].
    apply Train_init_anchored; tauto.
Qed.

Lemma anchored_blocks_shrink (g : Game) (t : Train) :
  screen_width g = 200 -> screen_height g = 200 -> screen_padding g = 100 ->
  anchored t -> past_threshold g (position t) = true.
Proof.
  intros Hw Hh Hpad (_ & Hkeep).
  apply past_threshold_iff. rewrite Hw, Hh, Hpad.
  destruct (direction t); lia.
Qed.

Lemma remove_train_Inv (name : string) (w : World) :
  Inv (game w) ->
  exists w',
    remove_train name w = (Ret tt, w') /\ Inv (game w') /\
    lock (game w') = lock (game w).
Proof.
  intros (Hgrid & Hpad & Hzone & Hsq & (k & Hk & Hw) & Hts).
  destruct (remove_train_runs name w) as (ps & w' & Hrun & Hg & _).
  exists w'. split; [exact Hrun|]. rewrite Hg. unfold removed_game.
  set (ts := if dict_mem name (trains (game w))
             then dict_pop name (trains (game w)) else trains (game w)).
  assert (Hts' : Forall anchored (dict_values ts)).
  { subst ts. destruct (dict_mem name (trains (game w)));
      [apply dict_pop_values|]; exact Hts. }
  destruct ts as [|[k0 t0] ts'] eqn:Ets.
  - unfold Inv; fields. repeat split; auto.
    exists 0. split; [lia | reflexivity].
  - destruct (can_reduce_padding (set_trains ((k0, t0) :: ts') (game w))) eqn:Ecan;
      unfold Inv; fields; repeat split; auto; try lia.
    + exists (k - 1). split; [|lia].
      assert (k <> 0); [|lia]. intros ->.
      unfold can_reduce_padding in Ecan.
      cbn [dict_values map forallb set_trains trains snd] in Ecan.
      apply andb_prop in Ecan. destruct Ecan as [Ecan _].
      apply andb_prop in Ecan. destruct Ecan as [Ecan _].
      inversion Hts' as [|? ? Hanch _]; subst.
      assert (Hpast : past_threshold (set_trains ((k0, t0) :: ts') (game w))
                                     (position t0) = true)
        by (apply anchored_blocks_shrink; fields; auto; lia).
      rewrite Hpast in Ecan. discriminate Ecan.
    + exists k; auto.
Qed.

Lemma tick_train_Inv (name : string) (w : World) :
  Inv (game w) ->
  exists dead w',
    tick_train name w = (Ret dead, w') /\ Inv (game w') /\
    lock (game w') = lock (game w).
Proof.
  intros HI. unfold tick_train. erewrite bind_ret by reflexivity.
  destruct (dict_get name (trains (game w))) as [t|] eqn:Eget.
  - destruct (Train_update t (passengers (game w)) (grid_size (game w)))
      as [t' ps'] eqn:Eup.
    eexists; eexists. split; [reflexivity|]. fields.
    split; [|reflexivity].
    destruct HI as (Hgrid & Hpad & Hzone & Hsq & Hw & Hts).
    unfold Inv; fields. repeat split; auto.
    apply Train_mark_head_on_Forall; [intros o Ho; exact Ho|].
    apply dict_set_values; [|exact Hts].
    change t' with (fst (t', ps')). rewrite <- Eup.
    apply Train_update_anchored.
    exact (dict_get_values anchored name _ t Hts Eget).
  - exists false, w. auto.
Qed.

Lemma tick_trains_Inv (names : list string) : forall w,
  Inv (game w) ->
  exists dead w',
    tick_trains names w = (Ret dead, w') /\ Inv (game w') /\
    lock (game w') = lock (game w).
Proof.
  induction names as [|name rest IH]; intros w HI; cbn [tick_trains].
  - exists [], w. auto.
  - destruct (tick_train_Inv name w HI) as (dead & w1 & Hrun1 & HI1 & Hl1).
    erewrite bind_ret by exact Hrun1.
    destruct (IH w1 HI1) as (others & w2 & Hrun2 & HI2 & Hl2).
    erewrite bind_ret by exact Hrun2.
    eexists; exists w2. split; [reflexivity|]. split; [exact HI2 | congruence].
Qed.

Lemma remove_trains_Inv (names : list string) : forall w,
  Inv (game w) ->
  exists w',
    remove_trains names w = (Ret tt, w') /\ Inv (game w') /\
    lock (game w') = lock (game w).
Proof.
  induction names as [|name rest IH]; intros w HI; cbn [remove_trains].
  - exists w. auto.
  - destruct (remove_train_Inv name w HI) as (w1 & Hrun1 & HI1 & Hl1).
    erewrite bind_ret by exact Hrun1.
    destruct (IH w1 HI1) as (w2 & Hrun2 & HI2 & Hl2).
    exists w2. split; [exact Hrun2|]. split; [exact HI2 | congruence].
Qed.

Lemma update_Inv (w : World) :
  Inv (game w) -> lock (game w) = false ->
  exists w', update w = (Ret tt, w') /\ Inv (game w') /\ lock (game w') = false.
Proof.
  intros HI Hlock.
  set (w1 := mkWorld (set_lock true (game w)) (tape w) (cursor w)
                     (trace w ++ [Acquire])).
  assert (HI1 : Inv (game w1)) by exact HI.
  destruct (tick_trains_Inv (dict_keys (trains (game w1))) w1 HI1)
    as (dead & w2 & Hrun2 & HI2 & _).
  destruct (remove_trains_Inv dead w2 HI2) as (w3 & Hrun3 & HI3 & _).
  unfold update. erewrite bind_ret by reflexivity.
  destruct (trains (game w)) as [|kv ts] eqn:Ets.
  - exists w. auto.
  - unfold with_lock, acquire. rewrite Hlock. fold w1.
    erewrite bind_ret by reflexivity.
    erewrite bind_ret by exact Hrun2.
    rewrite Hrun3.
    eexists. split; [reflexivity|]. split; [exact HI3 | reflexivity].
Qed.

Lemma reachable_Inv (d0 : Direction) (w : World) :
  reachable d0 w -> Inv (game w) /\ lock (game w) = false.
Proof.
  induction 1 as [tp | w c Hreach [HI Hlock]].
  - split; [apply Inv_init | reflexivity].
  - destruct c as [name | name |]; cbn [call].
    + destruct (add_train_Inv d0 name w HI Hlock) as (w' & Hrun & HI' & Hl').
      rewrite Hrun. auto.
    + destruct (remove_train_Inv name w HI) as (w' & Hrun & HI' & Hl').
      rewrite Hrun. cbn [snd]. split; [exact HI' | congruence].
    + destruct (update_Inv w HI Hlock) as (w' & Hrun & HI' & Hl').
      rewrite Hrun. auto.
Qed.

(** C1: in every world reached from a new engine by add_train, remove_train
    and update calls, width and height are at least the original 200,
    positive, and multiples of grid_size; moreover each of the three calls
    returns from such a world. *)
Theorem world_bounds_invariant (d0 : Direction) (w : World) :
  reachable d0 w ->
  ORIGINAL_SCREEN_WIDTH <= screen_width (game w) /\
  ORIGINAL_SCREEN_HEIGHT <= screen_height (game w) /\
  0 < screen_width (game w) /\
  0 < screen_height (game w) /\
  (grid_size (game w) | screen_width (game w)) /\
  (grid_size (game w) | screen_height (game w)) /\
  forall c, fst (call d0 c w) = Ret tt.
Proof.
  intros Hreach.
  destruct (reachable_Inv d0 w Hreach) as [HI Hlock].
  assert (Hcalls : forall c, fst (call d0 c w) = Ret tt).
  { intros [name | name |]; cbn [call].
    - destruct (add_train_Inv d0 name w HI Hlock) as (w' & -> & _); reflexivity.
    - destruct (remove_train_Inv name w HI) as (w' & -> & _); reflexivity.
    - destruct (update_Inv w HI Hlock) as (w' & -> & _); reflexivity. }
  destruct HI as (Hgrid & _ & _ & Hsq & (k & Hk & Hw) & _).
  unfold ORIGINAL_SCREEN_WIDTH, ORIGINAL_SCREEN_HEIGHT.
  rewrite Hsq, Hgrid, Hw.
  assert (Hdiv : (20 | 200 + 100 * k)) by (exists (10 + 5 * k); lia).
  repeat split; try lia; assumption.
Qed.

Lemma world_bounds_invariant_witness :
  ORIGINAL_SCREEN_WIDTH <= screen_width (game world_after_add_A) /\
  ORIGINAL_SCREEN_HEIGHT <= screen_height (game world_after_add_A) /\
  0 < screen_width (game world_after_add_A) /\
  0 < screen_height (game world_after_add_A) /\
  (grid_size (game world_after_add_A) | screen_width (game world_after_add_A)) /\
  (grid_size (game world_after_add_A) | screen_height (game world_after_add_A)) /\
  forall c, fst (call RIGHT c world_after_add_A) = Ret tt.
Proof.
  apply (world_bounds_invariant RIGHT world_after_add_A).
  exact (reach_call RIGHT new_world (CallAdd "A") (reach_init RIGHT zero_tape)).
Defined.

(** The calls of C1 do not turn trains. With change_direction_of_train in
    the sequence a train can leave the row and the column it was spawned
    on, and then the bounds do go below the minimum: "A" is driven to
    (40, 40), two calls of remove_train("B") shrink the world to 100 x 100,
    and add_train raises there. *)
Lemma bounds_below_minimum_after_turns :
  dict_get "A" (trains (game world_after_turns))
  = Some (mkTrain (40, 40) [] UP None true "A")
  /\ screen_width (game world_after_turns) = 100
  /\ screen_height (game world_after_turns) = 100
  /\ fst (add_train RIGHT "C" world_after_turns) = Raise ValueError.
Proof. vm_compute. repeat split; reflexivity. Qed.

(** ** The lock discipline *)

Lemma emits_nothing {A} (P : Event -> Prop) (c : M A) :
  (forall w, trace (snd (c w)) = trace w) -> emits P c.
Proof.
  intros H w. exists []. rewrite app_nil_r. split; [apply H | constructor].
Qed.

Lemma emits_ret {A} (P : Event -> Prop) (a : A) : emits P (ret a).
Proof. apply emits_nothing; reflexivity. Qed.

Lemma emits_raise {A} (P : Event -> Prop) (e : Exn) : emits P (@raise A e).
Proof. apply emits_nothing; reflexivity. Qed.

Lemma emits_get_game (P : Event -> Prop) : emits P get_game.
Proof. apply emits_nothing; reflexivity. Qed.

Lemma emits_draw (P : Event -> Prop) : emits P draw.
Proof. apply emits_nothing; reflexivity. Qed.

Lemma emits_mutate (P : Event -> Prop) (f : Field) (upd : Game -> Game) :
  P (Mutate f) -> emits P (mutate f upd).
Proof.
  intros HP w. exists [Mutate f]. split; [reflexivity|].
  constructor; [exact HP | constructor].
Qed.

Lemma emits_bind {A B} (P : Event -> Prop) (c : M A) (k : A -> M B) :
  emits P c -> (forall a, emits P (k a)) -> emits P (bind c k).
Proof.
  intros Hc Hk w. unfold bind.
  destruct (Hc w) as (tr1 & Htr1 & HP1).
  destruct (c w) as [[a | e |] w1]; cbn [snd] in *.
  - destruct (Hk a w1) as (tr2 & Htr2 & HP2).
    exists (tr1 ++ tr2). rewrite Htr2, Htr1, app_assoc.
    split; [reflexivity | apply Forall_app; auto].
  - exists tr1; auto.
  - exists tr1; auto.
Qed.

Lemma emits_if {A} (P : Event -> Prop) (b : bool) (c1 c2 : M A) :
  emits P c1 -> emits P c2 -> emits P (if b then c1 else c2).
Proof. destruct b; auto. Qed.

Lemma emits_while (P : Event -> Prop) (cond : Game -> bool) (body : M unit) :
  emits P body -> forall fuel, emits P (while fuel cond body).
Proof.
  intros Hbody fuel. induction fuel as [|fuel IH]; intros w; cbn [while].
  - destruct (cond (game w)); exists []; rewrite app_nil_r;
      split; try reflexivity; constructor.
  - destruct (cond (game w)).
    + destruct (Hbody w) as (tr1 & Htr1 & HP1).
      destruct (body w) as [[u | e |] w1]; cbn [snd] in *.
      * destruct (IH w1) as (tr2 & Htr2 & HP2).
        exists (tr1 ++ tr2). rewrite Htr2, Htr1, app_assoc.
        split; [reflexivity | apply Forall_app; auto].
      * exists tr1; auto.
      * exists tr1; auto.
    + exists []; rewrite app_nil_r; split; [reflexivity | constructor].
Qed.

Lemma emits_floordiv (P : Event -> Prop) (a b : Z) : emits P (floordiv a b).
Proof. unfold floordiv. apply emits_if; [apply emits_raise | apply emits_ret]. Qed.

Lemma emits_randint (P : Event -> Prop) (a b : Z) : emits P (randint a b).
Proof.
  unfold randint. apply emits_if; [|apply emits_raise].
  apply emits_bind; [apply emits_draw | intros r; apply emits_ret].
Qed.

Create HintDb trace_db.
#[local] Hint Resolve emits_ret emits_raise emits_get_game emits_draw
  emits_floordiv emits_randint emits_bind emits_if emits_while : trace_db.
#[local] Hint Extern 1 (emits is_mutation (mutate _ _)) =>
  apply emits_mutate; exact I : trace_db.

Lemma emits_update_passengers_count : emits is_mutation update_passengers_count.
Proof.
  unfold update_passengers_count, append_passenger, pop_passenger, Passenger_init.
  auto 12 with trace_db.
Qed.

Lemma emits_spawn_attempts (P : Event -> Prop) (n : nat) :
  emits P (spawn_attempts n).
Proof.
  induction n as [|n IH]; cbn [spawn_attempts]; [apply emits_ret|].
  repeat (apply emits_bind; [auto with trace_db | intros ?]).
  cbv zeta. apply emits_if; [apply emits_ret | exact IH].
Qed.

Lemma emits_get_safe_spawn_position (P : Event -> Prop) (n : nat) :
  emits P (get_safe_spawn_position n).
Proof.
  unfold get_safe_spawn_position, center_position.
  apply emits_bind; [apply emits_spawn_attempts|].
  intros [p|]; auto 12 with trace_db.
Qed.

Lemma emits_remove_train (name : string) : emits is_mutation (remove_train name).
Proof.
  unfold remove_train, reduce_padding.
  pose proof emits_update_passengers_count.
  auto 15 with trace_db.
Qed.

Lemma emits_change_direction_of_train (name : string) (d : Direction) :
  emits is_mutation (change_direction_of_train name d).
Proof.
  unfold change_direction_of_train.
  apply emits_bind; [apply emits_get_game|].
  intros g. destruct (dict_get name (trains g)); auto with trace_db.
Qed.

Lemma emits_tick_train (name : string) : emits is_mutation (tick_train name).
Proof.
  unfold tick_train.
  apply emits_bind; [apply emits_get_game|].
  intros g. destruct (dict_get name (trains g)) as [t|]; [|apply emits_ret].
  destruct (Train_update t (passengers g) (grid_size g)) as [t' ps'].
  auto 10 with trace_db.
Qed.

Lemma emits_tick_trains (names : list string) :
  emits is_mutation (tick_trains names).
Proof.
  induction names as [|name rest IH]; cbn [tick_trains]; [apply emits_ret|].
  apply emits_bind; [apply emits_tick_train|]. intros dead.
  apply emits_bind; [exact IH|]. intros others. apply emits_ret.
Qed.

Lemma emits_remove_trains (names : list string) :
  emits is_mutation (remove_trains names).
Proof.
  induction names as [|name rest IH]; cbn [remove_trains]; [apply emits_ret|].
  apply emits_bind; [apply emits_remove_train | intros _; exact IH].
Qed.

Lemma events_of_app {A} (c : M A) (w : World) (tr : list Event) :
  trace (snd (c w)) = trace w ++ tr -> events_of c w = tr.
Proof.
  unfold events_of. intros ->.
  rewrite skipn_app, skipn_all, Nat.sub_diag. reflexivity.
Qed.

Lemma unguarded_under_lock (tr rest : list Event) :
  Forall is_mutation tr -> unguarded true (tr ++ rest) = unguarded true rest.
Proof.
  induction 1 as [|e tr He _ IH]; [reflexivity|].
  destruct e; try contradiction. exact IH.
Qed.

Lemma with_lock_trace {A} (body : M A) (w : World) :
  lock (game w) = false ->
  emits is_mutation body ->
  exists tr,
    trace (snd (with_lock body w)) = trace w ++ Acquire :: tr ++ [Release] /\
    Forall is_mutation tr.
Proof.
  intros Hlock Hbody. unfold with_lock, acquire. rewrite Hlock.
  set (w1 := mkWorld (set_lock true (game w)) (tape w) (cursor w)
                     (trace w ++ [Acquire])).
  destruct (Hbody w1) as (tr & Htr & HP).
  destruct (body w1) as [r w2]. cbn [snd] in Htr.
  exists tr. split; [|exact HP].
  cbn [release snd trace]. rewrite Htr. subst w1. cbn [trace].
  rewrite <- !app_assoc. reflexivity.
Qed.

(** update writes only between its Acquire and its Release, and does not
    touch the lock when there is no train. *)
Lemma update_lock_disciplined (w : World) :
  lock (game w) = false ->
  (trains (game w) = [] /\ events_of update w = [])
  \/ (exists tr, events_of update w = Acquire :: tr ++ [Release]
                 /\ Forall is_mutation tr
                 /\ unguarded false (events_of update w) = []).
Proof.
  intros Hlock. unfold update.
  destruct (trains (game w)) as [|kv ts] eqn:Ets.
  - left. split; [reflexivity|].
    apply events_of_app. unfold bind, get_game. rewrite Ets.
    cbn [snd ret]. rewrite app_nil_r. reflexivity.
  - right.
    destruct (with_lock_trace
                (g1 <- get_game ;;
                 trains_to_remove <- tick_trains (dict_keys (trains g1)) ;;
                 remove_trains trains_to_remove) w Hlock)
      as (tr & Htr & HP).
    { apply emits_bind; [apply emits_get_game | intros g1].
      apply emits_bind; [apply emits_tick_trains | intros names].
      apply emits_remove_trains. }
    exists tr.
    assert (Hev : events_of
                    (g <- get_game ;;
                     match trains g with
                     | [] => ret tt
                     | _ :: _ =>
                         with_lock
                           (g1 <- get_game ;;
                            trains_to_remove <- tick_trains (dict_keys (trains g1)) ;;
                            remove_trains trains_to_remove)
                     end) w = Acquire :: tr ++ [Release]).
    { apply events_of_app. unfold bind at 1, get_game at 1. rewrite Ets.
      exact Htr. }
    rewrite Hev. split; [reflexivity|]. split; [exact HP|].
    cbn [unguarded]. rewrite unguarded_under_lock by exact HP. reflexivity.
Qed.

(** add_train inserts the train and re-balances the passengers between its
    Acquire and its Release. *)
Lemma add_train_guards_map_and_passengers (d0 : Direction) (name : string)
      (w : World) :
  lock (game w) = false ->
  exists tr rest,
    events_of (add_train d0 name) w = Acquire :: tr ++ Release :: rest /\
    Forall is_mutation tr /\
    (rest = [] \/ rest = [Mutate FWidth; Mutate FHeight]).
Proof.
  intros Hlock. unfold add_train.
  match goal with
  | |- context [bind (with_lock ?b) _] =>
      destruct (with_lock_trace b w Hlock) as (tr & Htr & HP)
  end.
  { apply emits_bind; [apply emits_get_safe_spawn_position | intros p].
    apply emits_bind; [apply emits_mutate; exact I | intros _].
    apply emits_update_passengers_count. }
  exists tr.
  match goal with
  | |- context [bind (with_lock ?b) _] =>
      destruct (with_lock b w) as [[u | e |] w2] eqn:Erun
  end; cbn [snd] in Htr.
  - exists [Mutate FWidth; Mutate FHeight].
    split; [|split; [exact HP | right; reflexivity]].
    apply events_of_app. unfold bind at 1. rewrite Erun.
    cbn. rewrite Htr.
    repeat first [rewrite <- app_assoc | progress cbn [app]]. reflexivity.
  - exists []. split; [|split; [exact HP | left; reflexivity]].
    apply events_of_app. unfold bind at 1. rewrite Erun.
    cbn [snd]. rewrite Htr. reflexivity.
  - exists []. split; [|split; [exact HP | left; reflexivity]].
    apply events_of_app. unfold bind at 1. rewrite Erun.
    cbn [snd]. rewrite Htr. reflexivity.
Qed.

(** remove_train and change_direction_of_train never touch the lock. *)
Lemma remove_train_never_locks (name : string) (w : World) :
  Forall is_mutation (events_of (remove_train name) w).
Proof.
  destruct (emits_remove_train name w) as (tr & Htr & HP).
  rewrite (events_of_app _ _ _ Htr). exact HP.
Qed.

Lemma change_direction_never_locks (name : string) (d : Direction) (w : World) :
  Forall is_mutation (events_of (change_direction_of_train name d) w).
Proof.
  destruct (emits_change_direction_of_train name d w) as (tr & Htr & HP).
  rewrite (events_of_app _ _ _ Htr). exact HP.
Qed.

(** C10: the code at the failing input. remove_train("A") on a new engine
    writes the passenger list, the width and the height with no Acquire in
    its trace; change_direction_of_train writes a train with none either,
    and add_train grows the bounds after its Release: the four operations
    do not all write under the lock. *)
Theorem remove_train_writes_without_lock :
  events_of (remove_train "A") new_world
  = [Mutate FPassengers; Mutate FWidth; Mutate FHeight; Mutate FPassengers]
  /\ unguarded false (events_of (remove_train "A") new_world)
     = [FPassengers; FWidth; FHeight; FPassengers]
  /\ events_of (change_direction_of_train "A" UP) world_after_add_A
     = [Mutate FTrains]
  /\ events_of (add_train RIGHT "A") new_world
     = [Acquire; Mutate FTrains; Mutate FPassengers; Release;
        Mutate FWidth; Mutate FHeight]
  /\ ~ all_calls_hold_lock RIGHT.
Proof.
  repeat split; try reflexivity.
  intros H. destruct (H "A"%string UP) as (_ & Hremove & _).
  specialize (Hremove new_world eq_refl).
  vm_compute in Hremove. discriminate Hremove.
Qed.


(** * Further properties of the engine *)

(** ** get_random_grid_position *)

(** X1: in a world at least one cell wide and high, with a positive cell
    size, get_random_grid_position returns a cell of the grid that lies
    inside the world, and leaves the engine as it is. *)
Theorem get_random_grid_position_in_world (w : World) :
  0 < grid_size (game w) ->
  grid_size (game w) <= screen_width (game w) ->
  grid_size (game w) <= screen_height (game w) ->
  exists x y w',
    get_random_grid_position w = (Ret (x, y), w') /\
    game w' = game w /\ trace w' = trace w /\
    0 <= x <= screen_width (game w) - grid_size (game w) /\
    0 <= y <= screen_height (game w) - grid_size (game w) /\
    (grid_size (game w) | x) /\ (grid_size (game w) | y).
Proof.
  intros Hgrid Hw Hh.
  assert (Hqx : 1 <= screen_width (game w) / grid_size (game w))
    by (apply Z.div_le_lower_bound; lia).
  assert (Hqy : 1 <= screen_height (game w) / grid_size (game w))
    by (apply Z.div_le_lower_bound; lia).
  pose proof (Z.mul_div_le (screen_width (game w)) (grid_size (game w)) Hgrid) as Hmx.
  pose proof (Z.mul_div_le (screen_height (game w)) (grid_size (game w)) Hgrid) as Hmy.
  unfold get_random_grid_position.
  erewrite bind_ret by reflexivity.
  erewrite bind_ret by (apply floordiv_runs; lia).
  destruct (randint_runs 0 (screen_width (game w) / grid_size (game w) - 1) w)
    as (cx & w1 & Hr1 & Hg1 & Ht1 & Hcx); [lia|].
  erewrite bind_ret by exact Hr1.
  erewrite bind_ret by (apply floordiv_runs; lia).
  destruct (randint_runs 0 (screen_height (game w) / grid_size (game w) - 1) w1)
    as (cy & w2 & Hr2 & Hg2 & Ht2 & Hcy); [lia|].
  erewrite bind_ret by exact Hr2.
  exists (cx * grid_size (game w)), (cy * grid_size (game w)), w2.
  split; [reflexivity|].
  split; [congruence|]. split; [congruence|].
  split; [nia|]. split; [nia|].
  split; [exists cx | exists cy]; reflexivity.
Qed.

Lemma get_random_grid_position_in_world_witness :
  exists x y w',
    get_random_grid_position new_world = (Ret (x, y), w') /\
    0 <= x <= 180 /\ 0 <= y <= 180 /\ (20 | x) /\ (20 | y).
Proof.
  destruct (get_random_grid_position_in_world new_world)
    as (x & y & w' & Hrun & _ & _ & Hx & Hy & Hdx & Hdy).
  - reflexivity.
  - discriminate.
  - discriminate.
  - exists x, y, w'. auto.
Defined.

(** X2: with a positive cell size, get_random_grid_position raises
    ValueError exactly when the world is narrower or lower than one cell. *)
Theorem get_random_grid_position_raises_iff (w : World) :
  0 < grid_size (game w) ->
  (fst (get_random_grid_position w) = Raise ValueError <->
   screen_width (game w) < grid_size (game w)
   \/ screen_height (game w) < grid_size (game w)).
Proof.
  intros Hgrid. split.
  - intros Hraise.
    destruct (Z_lt_ge_dec (screen_width (game w)) (grid_size (game w)));
      [left; assumption|].
    destruct (Z_lt_ge_dec (screen_height (game w)) (grid_size (game w)));
      [right; assumption|].
    destruct (get_random_grid_position_in_world w)
      as (x & y & w' & Hrun & _); try lia.
    rewrite Hrun in Hraise. discriminate Hraise.
  - intros Hsmall.
    unfold get_random_grid_position.
    erewrite bind_ret by reflexivity.
    erewrite bind_ret by (apply floordiv_runs; lia).
    destruct (Z_lt_ge_dec (screen_width (game w)) (grid_size (game w)))
      as [Hw|Hw].
    + assert (Hq : screen_width (game w) / grid_size (game w) < 1)
        by (apply Z.div_lt_upper_bound; lia).
      unfold randint at 1.
      destruct (Z.leb_spec 0 (screen_width (game w) / grid_size (game w) - 1));
        [lia | reflexivity].
    + destruct Hsmall as [Hbad|Hh]; [lia|].
      assert (Hqx : 1 <= screen_width (game w) / grid_size (game w))
        by (apply Z.div_le_lower_bound; lia).
      destruct (randint_runs 0 (screen_width (game w) / grid_size (game w) - 1) w)
        as (cx & w1 & Hr1 & _); [lia|].
      erewrite bind_ret by exact Hr1.
      erewrite bind_ret by (apply floordiv_runs; lia).
      assert (Hq : screen_height (game w) / grid_size (game w) < 1)
        by (apply Z.div_lt_upper_bound; lia).
      unfold randint at 1.
      destruct (Z.leb_spec 0 (screen_height (game w) / grid_size (game w) - 1));
        [lia | reflexivity].
Qed.

Lemma get_random_grid_position_raises_iff_witness :
  fst (get_random_grid_position tiny_world) = Raise ValueError.
Proof.
  apply (get_random_grid_position_raises_iff tiny_world).
  - reflexivity.
  - left. reflexivity.
Defined.

(** ** get_safe_spawn_position *)

Lemma spawn_attempts_on_grid (n : nat) : forall w,
  spawn_ranges_ok (game w) ->
  exists r w',
    spawn_attempts n w = (Ret r, w') /\
    forall p, r = Some p ->
              (grid_size (game w) | fst p) /\ (grid_size (game w) | snd p).
Proof.
  induction n as [|n IH]; intros w Hok; cbn [spawn_attempts].
  - exists None, w. split; [reflexivity | discriminate].
  - pose proof Hok as (Hgrid & Hx & Hy).
    erewrite bind_ret by reflexivity.
    erewrite bind_ret by (apply floordiv_runs; exact Hgrid).
    destruct (randint_runs _ _ w Hx) as (cx & w1 & Hr1 & Hg1 & _).
    erewrite bind_ret by exact Hr1.
    erewrite bind_ret by (apply floordiv_runs; exact Hgrid).
    destruct (randint_runs _ _ w1 Hy) as (cy & w2 & Hr2 & Hg2 & _).
    erewrite bind_ret by exact Hr2.
    cbv zeta.
    destruct (is_position_safe (game w) (cx * grid_size (game w))
                               (cy * grid_size (game w))).
    + eexists; exists w2. split; [reflexivity|].
      intros p Hp; injection Hp as <-.
      split; [exists cx | exists cy]; reflexivity.
    + destruct (IH w2) as (r & w' & Hrun & Hr).
      { rewrite Hg2, Hg1; exact Hok. }
      exists r, w'. split; [exact Hrun|].
      intros p Hp. specialize (Hr p Hp). rewrite Hg2, Hg1 in Hr. exact Hr.
Qed.

(** X3: when the spawn ranges are not empty, get_safe_spawn_position
    returns a cell of the grid and leaves the engine as it is; the cell is
    the centre fallback, or it is safe and at least the safe distance away
    from the four edges. *)
Theorem get_safe_spawn_position_on_grid (n : nat) (w : World) :
  spawn_ranges_ok (game w) ->
  exists p w',
    get_safe_spawn_position n w = (Ret p, w') /\
    game w' = game w /\ trace w' = trace w /\
    (grid_size (game w) | fst p) /\ (grid_size (game w) | snd p) /\
    (p = center_of (game w)
     \/ (is_position_safe (game w) (fst p) (snd p) = true /\
         grid_size (game w) * spawn_safe_zone (game w) <= fst p
         <= screen_width (game w) - grid_size (game w) * spawn_safe_zone (game w) /\
         grid_size (game w) * spawn_safe_zone (game w) <= snd p
         <= screen_height (game w) - grid_size (game w) * spawn_safe_zone (game w))).
Proof.
  intros Hok.
  destruct (get_safe_spawn_position_runs n w Hok) as (p & w' & Hrun & Hg & Ht & Hp).
  exists p, w'. split; [exact Hrun|]. split; [exact Hg|]. split; [exact Ht|].
  assert (Hgrid : (grid_size (game w) | fst p) /\ (grid_size (game w) | snd p)).
  { destruct (spawn_attempts_on_grid n w Hok) as (r & w1 & Hrun1 & Hr).
    unfold get_safe_spawn_position in Hrun.
    erewrite bind_ret in Hrun by exact Hrun1.
    destruct r as [q|].
    - injection Hrun as <- _. apply Hr; reflexivity.
    - assert (Hg1 : game w1 = game w).
      { destruct (spawn_attempts_runs n w Hok) as (r' & w1' & Hrun1' & Hg1' & _).
        congruence. }
      rewrite center_position_runs in Hrun by (rewrite Hg1; apply Hok).
      injection Hrun as <- _. rewrite Hg1. unfold center_of; cbn [fst snd].
      split; [exists (screen_width (game w) / 2 / grid_size (game w))
             | exists (screen_height (game w) / 2 / grid_size (game w))];
        reflexivity. }
  split; [apply Hgrid|]. split; [apply Hgrid|].
  destruct Hp as [Hsafe | Hcenter]; [right | left; exact Hcenter].
  split; [exact Hsafe|].
  unfold is_position_safe in Hsafe; cbv zeta in Hsafe.
  destruct (near_border (game w) (fst p) (snd p)) eqn:Hb; [discriminate|].
  unfold near_border in Hb; cbv zeta in Hb.
  rewrite !Z.gtb_ltb, !orb_false_iff, !Z.ltb_ge in Hb.
  lia.
Qed.

Lemma get_safe_spawn_position_on_grid_witness :
  exists p w',
    get_safe_spawn_position 100 world_after_add_A = (Ret p, w') /\
    game w' = game world_after_add_A /\
    (20 | fst p) /\ (20 | snd p).
Proof.
  destruct (get_safe_spawn_position_on_grid 100 world_after_add_A)
    as (p & w' & Hrun & Hg & _ & Hx & Hy & _).
  - unfold spawn_ranges_ok. simpl. repeat split; [discriminate | lia | lia].
  - exists p, w'. auto.
Defined.

(** ** update_passengers_count, again *)

Lemma while_skips (fuel : nat) (cond : Game -> bool) (body : M unit) (w : World) :
  cond (game w) = false -> while fuel cond body w = (Ret tt, w).
Proof. intros H. destruct fuel; cbn [while]; rewrite H; reflexivity. Qed.

Lemma update_passengers_count_settled (w : World) :
  List.length (passengers (game w)) = desired_passengers (game w) ->
  update_passengers_count w = (Ret tt, w).
Proof.
  intros H. unfold update_passengers_count.
  erewrite bind_ret by reflexivity. cbv zeta.
  erewrite bind_ret by (apply while_skips; rewrite H; apply Nat.ltb_irrefl).
  erewrite bind_ret by reflexivity.
  apply while_skips. rewrite H. apply Nat.ltb_irrefl.
Qed.

(** X4: update_passengers_count is idempotent: right after a call, a
    second call returns without drawing a random number and without
    writing anything. *)
Theorem update_passengers_count_idempotent (w : World) :
  update_passengers_count (snd (update_passengers_count w))
  = (Ret tt, snd (update_passengers_count w)).
Proof.
  destruct (update_passengers_count_runs w) as (ps' & w' & Hrun & Hg & Hlen & _).
  rewrite Hrun; cbn [snd].
  apply update_passengers_count_settled.
  rewrite Hg. exact Hlen.
Qed.

(** ** Calls that only read *)

Lemma reads_only_ret {A} (a : A) : reads_only (ret a).
Proof. intros w; split; reflexivity. Qed.

Lemma reads_only_raise {A} (e : Exn) : reads_only (@raise A e).
Proof. intros w; split; reflexivity. Qed.

Lemma reads_only_get_game : reads_only get_game.
Proof. intros w; split; reflexivity. Qed.

Lemma reads_only_draw : reads_only draw.
Proof. intros w; split; reflexivity. Qed.

Lemma reads_only_bind {A B} (c : M A) (k : A -> M B) :
  reads_only c -> (forall a, reads_only (k a)) -> reads_only (bind c k).
Proof.
  intros Hc Hk w. unfold bind.
  destruct (Hc w) as [Hg Ht].
  destruct (c w) as [[a | e |] w1]; cbn [snd] in *; auto.
  destruct (Hk a w1) as [Hg' Ht']. split; congruence.
Qed.

Lemma reads_only_if {A} (b : bool) (c1 c2 : M A) :
  reads_only c1 -> reads_only c2 -> reads_only (if b then c1 else c2).
Proof. destruct b; auto. Qed.

Lemma reads_only_floordiv (a b : Z) : reads_only (floordiv a b).
Proof.
  unfold floordiv. apply reads_only_if;
    [apply reads_only_raise | apply reads_only_ret].
Qed.

Lemma reads_only_randint (a b : Z) : reads_only (randint a b).
Proof.
  unfold randint. apply reads_only_if; [|apply reads_only_raise].
  apply reads_only_bind; [apply reads_only_draw | intros r; apply reads_only_ret].
Qed.

#[local] Hint Resolve reads_only_ret reads_only_raise reads_only_get_game
  reads_only_draw reads_only_bind reads_only_if reads_only_floordiv
  reads_only_randint : trace_db.

Lemma reads_only_spawn_attempts (n : nat) : reads_only (spawn_attempts n).
Proof.
  induction n as [|n IH]; cbn [spawn_attempts]; [apply reads_only_ret|].
  repeat (apply reads_only_bind; [auto with trace_db | intros ?]).
  cbv zeta. apply reads_only_if; [apply reads_only_ret | exact IH].
Qed.

Lemma reads_only_get_safe_spawn_position (n : nat) :
  reads_only (get_safe_spawn_position n).
Proof.
  unfold get_safe_spawn_position, center_position.
  apply reads_only_bind; [apply reads_only_spawn_attempts|].
  intros [p|]; auto 12 with trace_db.
Qed.

(** ** add_train, again *)

Lemma set_lock_round (g : Game) :
  lock g = false -> set_lock false (set_lock true g) = g.
Proof. destruct g; simpl; intros ->; reflexivity. Qed.

(** X5: a call of add_train that does not return normally leaves the
    engine exactly as it was, with the lock released: the spawn search
    fails before anything is written, and the only events of the call are
    the Acquire and the Release. *)
Theorem add_train_failure_is_clean (d0 : Direction) (name : string) (w : World) :
  lock (game w) = false ->
  fst (add_train d0 name w) <> Ret tt ->
  game (snd (add_train d0 name w)) = game w /\
  events_of (add_train d0 name) w = [Acquire; Release].
Proof.
  intros Hlock Hfail.
  set (w1 := mkWorld (set_lock true (game w)) (tape w) (cursor w)
                     (trace w ++ [Acquire])).
  destruct (reads_only_get_safe_spawn_position 100 w1) as [Hg2 Ht2].
  assert (Hsplit :
            (exists p w2, get_safe_spawn_position 100 w1 = (Ret p, w2))
            \/ snd (add_train d0 name w)
               = snd (release (snd (get_safe_spawn_position 100 w1)))).
  { destruct (get_safe_spawn_position 100 w1) as [[p | e |] w2] eqn:Esp.
    - left. exists p, w2. reflexivity.
    - right.
      unfold add_train, bind at 1, with_lock, acquire. rewrite Hlock. fold w1.
      unfold bind at 1. rewrite Esp. reflexivity.
    - right.
      unfold add_train, bind at 1, with_lock, acquire. rewrite Hlock. fold w1.
      unfold bind at 1. rewrite Esp. reflexivity. }
  destruct Hsplit as [(p & w2 & Hsp) | Hrun].
  - exfalso. apply Hfail.
    set (w3 := mkWorld (set_trains
                          (dict_set name (Train_init d0 (fst p) (snd p) name)
                                    (trains (game w2))) (game w2))
                       (tape w2) (cursor w2) (trace w2 ++ [Mutate FTrains])).
    destruct (update_passengers_count_runs w3) as (ps & w4 & Hupc & _).
    unfold add_train. erewrite bind_ret; [reflexivity|].
    unfold with_lock, acquire. rewrite Hlock. fold w1.
    erewrite bind_ret by exact Hsp.
    erewrite bind_ret by reflexivity.
    cbv beta. fold w3. rewrite Hupc. reflexivity.
  - split.
    + rewrite Hrun. cbn [snd release game]. rewrite Hg2. subst w1. cbn [game].
      apply set_lock_round. exact Hlock.
    + apply events_of_app. rewrite Hrun. cbn [snd release trace].
      rewrite Ht2. subst w1. cbn [trace]. rewrite <- app_assoc. reflexivity.
Qed.

Lemma add_train_failure_is_clean_witness :
  game (snd (add_train RIGHT "A" small_world)) = game small_world /\
  events_of (add_train RIGHT "A") small_world = [Acquire; Release].
Proof.
  apply (add_train_failure_is_clean RIGHT "A" small_world).
  - reflexivity.
  - vm_compute. discriminate.
Defined.

(** ** More on dictionaries *)

Lemma dict_mem_keys {V} (k : string) (d : dict V) :
  dict_mem k d = true <-> In k (dict_keys d).
Proof.
  unfold dict_mem, dict_keys.
  induction d as [|[k' v'] d IH]; simpl.
  - split; [discriminate | contradiction].
  - destruct (String.eqb_spec k k') as [->|Hne].
    + split; auto.
    + rewrite IH. split; [auto | intros [H|H]; [congruence | exact H]].
Qed.

Lemma dict_set_keys_new {V} (k : string) (v : V) (d : dict V) :
  dict_mem k d = false -> dict_keys (dict_set k v d) = dict_keys d ++ [k].
Proof.
  unfold dict_mem, dict_keys.
  induction d as [|[k' v'] d IH]; simpl; [reflexivity|].
  destruct (String.eqb k k'); [discriminate|].
  intros H. simpl. f_equal. apply IH. exact H.
Qed.

Lemma dict_get_pop_other {V} (k k' : string) (d : dict V) :
  k' <> k -> dict_get k' (dict_pop k d) = dict_get k' d.
Proof.
  intros Hne. induction d as [|[k0 v0] d IH]; simpl; [reflexivity|].
  destruct (String.eqb_spec k k0) as [->|Hk]; simpl.
  - destruct (String.eqb_spec k' k0); [contradiction | reflexivity].
  - destruct (String.eqb k' k0); [reflexivity | exact IH].
Qed.

Lemma dict_pop_keys {V} (k : string) (d : dict V) :
  NoDup (dict_keys d) ->
  dict_keys (dict_pop k d) = remove string_dec k (dict_keys d).
Proof.
  unfold dict_keys.
  induction d as [|[k0 v0] d IH]; simpl; intros Hnd; [reflexivity|].
  inversion Hnd as [|? ? Hnotin Hnd']; subst.
  destruct (String.eqb_spec k k0) as [->|Hk].
  - destruct (string_dec k0 k0); [|contradiction].
    symmetry. apply notin_remove. exact Hnotin.
  - destruct (string_dec k k0); [contradiction|].
    simpl. f_equal. apply IH. exact Hnd'.
Qed.

Lemma dict_pop_NoDup {V} (k : string) (d : dict V) :
  NoDup (dict_keys d) -> NoDup (dict_keys (dict_pop k d)).
Proof.
  intros Hnd. rewrite dict_pop_keys by exact Hnd.
  induction (dict_keys d) as [|a l IH]; simpl; [constructor|].
  inversion Hnd as [|? ? Hnotin Hnd']; subst.
  destruct (string_dec k a); [apply IH; exact Hnd'|].
  constructor; [|apply IH; exact Hnd'].
  intros Hin. apply in_remove in Hin. apply Hnotin, Hin.
Qed.

Lemma dict_set_NoDup {V} (k : string) (v : V) (d : dict V) :
  NoDup (dict_keys d) -> NoDup (dict_keys (dict_set k v d)).
Proof.
  intros Hnd. destruct (dict_mem k d) eqn:Hmem.
  - rewrite dict_set_keys by exact Hmem. exact Hnd.
  - rewrite dict_set_keys_new by exact Hmem.
    apply NoDup_app; [exact Hnd | repeat constructor; auto |].
    intros x Hx [<-|[]].
    apply dict_mem_keys in Hx. congruence.
Qed.

Lemma dict_pop_mem {V} (k : string) (d : dict V) :
  NoDup (dict_keys d) -> dict_mem k (dict_pop k d) = false.
Proof.
  intros Hnd. destruct (dict_mem k (dict_pop k d)) eqn:Hmem; [|reflexivity].
  apply dict_mem_keys in Hmem. rewrite dict_pop_keys in Hmem by exact Hnd.
  apply remove_In in Hmem. contradiction.
Qed.

Lemma dict_set_length_new {V} (k : string) (v : V) (d : dict V) :
  dict_mem k d = false -> List.length (dict_set k v d) = S (List.length d).
Proof.
  intros Hmem.
  assert (H : List.length (dict_keys (dict_set k v d))
              = List.length (dict_keys d ++ [k]))
    by (rewrite dict_set_keys_new by exact Hmem; reflexivity).
  unfold dict_keys in H. rewrite length_app, !length_map in H.
  simpl in H. lia.
Qed.

(** ** add_train and remove_train on the train map *)

(** X6: add_train with a name that is not in the map, on an engine whose
    lock is free and whose spawn ranges are not empty, returns; the name is
    appended after the existing names and maps to a new train with no
    wagon at the position that get_safe_spawn_position returns under the
    lock (a safe one, or the centre), every other train is untouched, the
    passenger list has max(1, floor((n + 1) / 2)) elements for n trains
    before, and width and height have grown by screen_padding. *)
Theorem add_new_train (d0 : Direction) (name : string) (w : World) :
  lock (game w) = false ->
  spawn_ranges_ok (game w) ->
  dict_mem name (trains (game w)) = false ->
  exists p w',
    add_train d0 name w = (Ret tt, w') /\
    fst (get_safe_spawn_position 100 (after_acquire w)) = Ret p /\
    (is_position_safe (game w) (fst p) (snd p) = true \/ p = center_of (game w)) /\
    dict_keys (trains (game w')) = dict_keys (trains (game w)) ++ [name] /\
    dict_get name (trains (game w')) = Some (Train_init d0 (fst p) (snd p) name) /\
    (forall other, other <> name ->
                   dict_get other (trains (game w')) = dict_get other (trains (game w))) /\
    List.length (passengers (game w'))
    = Nat.max 1 (Nat.div (S (List.length (trains (game w)))) 2) /\
    screen_width (game w') = screen_width (game w) + screen_padding (game w) /\
    screen_height (game w') = screen_height (game w) + screen_padding (game w).
Proof.
  intros Hlock Hok Hnew.
  destruct (add_train_runs_full d0 name w Hlock Hok)
    as (p & ps & w' & Hsp & Hrun & Hg & Hp & Hlen & _).
  exists p, w'. rewrite Hg. unfold added_game; fields.
  split; [exact Hrun|]. split; [exact Hsp|]. split; [exact Hp|].
  split; [apply dict_set_keys_new; exact Hnew|].
  split; [apply dict_get_set|].
  split; [intros other Hne; apply dict_get_set_other; exact Hne|].
  split; [|split; reflexivity].
  rewrite Hlen, dict_set_length_new by exact Hnew. reflexivity.
Qed.

Lemma add_new_train_witness :
  exists p w',
    add_train RIGHT "B" world_after_add_A = (Ret tt, w') /\
    fst (get_safe_spawn_position 100 (after_acquire world_after_add_A)) = Ret p /\
    dict_keys (trains (game w')) = ["A"%string; "B"%string] /\
    dict_get "B" (trains (game w')) = Some (Train_init RIGHT (fst p) (snd p) "B") /\
    dict_get "A" (trains (game w')) = dict_get "A" (trains (game world_after_add_A)) /\
    List.length (passengers (game w')) = 1%nat /\
    screen_width (game w') = 400.
Proof.
  destruct (add_new_train RIGHT "B" world_after_add_A)
    as (p & w' & Hrun & Hsp & _ & Hkeys & Hget & Hother & Hlen & Hw & _).
  - reflexivity.
  - unfold spawn_ranges_ok. simpl. repeat split; [discriminate | lia | lia].
  - reflexivity.
  - exists p, w'. split; [exact Hrun|]. split; [exact Hsp|]. split; [exact Hkeys|].
    split; [exact Hget|]. split; [apply Hother; discriminate|].
    split; [exact Hlen | exact Hw].
Defined.

Lemma removed_game_trains (name : string) (ps : list Passenger) (g : Game) :
  trains (removed_game name ps g)
  = if dict_mem name (trains g) then dict_pop name (trains g) else trains g.
Proof.
  unfold removed_game.
  destruct (if dict_mem name (trains g) then dict_pop name (trains g)
            else trains g) as [|kv ts]; [reflexivity|].
  destruct (can_reduce_padding _); reflexivity.
Qed.

(** X7: remove_train with a name that is in the map (a map has each name
    once) returns and removes exactly that entry: the name is no longer in
    the map, the other names keep their order and their trains. *)
Theorem remove_present_train (name : string) (w : World) :
  NoDup (dict_keys (trains (game w))) ->
  dict_mem name (trains (game w)) = true ->
  exists w',
    remove_train name w = (Ret tt, w') /\
    dict_mem name (trains (game w')) = false /\
    dict_keys (trains (game w')) = remove string_dec name (dict_keys (trains (game w))) /\
    (forall other, other <> name ->
                   dict_get other (trains (game w')) = dict_get other (trains (game w))) /\
    NoDup (dict_keys (trains (game w'))).
Proof.
  intros Hnd Hmem.
  destruct (remove_train_runs name w) as (ps & w' & Hrun & Hg & _).
  exists w'. split; [exact Hrun|].
  rewrite Hg, removed_game_trains, Hmem.
  split; [apply dict_pop_mem; exact Hnd|].
  split; [apply dict_pop_keys; exact Hnd|].
  split; [intros other Hne; apply dict_get_pop_other; exact Hne|].
  apply dict_pop_NoDup; exact Hnd.
Qed.

Lemma remove_present_train_witness :
  exists w',
    remove_train "A" world_after_add_A = (Ret tt, w') /\
    dict_mem "A" (trains (game w')) = false.
Proof.
  destruct (remove_present_train "A" world_after_add_A) as (w' & Hrun & Hmem & _).
  - simpl. repeat constructor. intros [].
  - reflexivity.
  - exists w'. auto.
Defined.

(** X8: on an engine with no train (lock free, spawn ranges not empty),
    add_train(name) followed by remove_train(name) returns and leaves an
    engine with no train, no passenger and the original 200 x 200 bounds,
    whatever the bounds and the passengers were and whatever was drawn; on
    a new engine the result is the new engine again. *)
Theorem add_then_remove_resets (d0 : Direction) (name : string) (w : World) :
  trains (game w) = [] ->
  lock (game w) = false ->
  spawn_ranges_ok (game w) ->
  exists w',
    (add_train d0 name ;; remove_train name) w = (Ret tt, w') /\
    game w' = mkGame ORIGINAL_SCREEN_WIDTH ORIGINAL_SCREEN_HEIGHT
                     (grid_size (game w)) (running (game w)) [] []
                     (screen_padding (game w)) false (spawn_safe_zone (game w)).
Proof.
  intros Hnone Hlock Hok.
  destruct (add_train_runs d0 name w Hlock Hok) as (p & ps & w1 & Hrun1 & Hg1 & _).
  destruct (remove_train_runs name w1) as (ps' & w' & Hrun2 & Hg2 & _).
  exists w'. split; [erewrite bind_ret by exact Hrun1; exact Hrun2|].
  rewrite Hg2, Hg1. unfold removed_game, added_game, dict_mem; fields.
  rewrite Hnone. cbn [dict_set dict_get]. rewrite String.eqb_refl.
  cbn [dict_pop]. rewrite String.eqb_refl. rewrite Hlock. reflexivity.
Qed.

Lemma add_then_remove_resets_witness :
  exists w',
    (add_train RIGHT "A" ;; remove_train "A") new_world = (Ret tt, w') /\
    game w' = Game_init.
Proof.
  destruct (add_then_remove_resets RIGHT "A" new_world) as (w' & Hrun & Hg).
  - reflexivity.
  - reflexivity.
  - unfold spawn_ranges_ok. simpl. repeat split; [discriminate | lia | lia].
  - exists w'. split; [exact Hrun | exact Hg].
Defined.

(** ** Growing and shrinking *)

(** X9: reduce_padding undoes update_screen_size: when the shrink test
    passes in the grown world, growing and then shrinking gives back the
    engine one started from. *)
Theorem grow_then_shrink_restores (w : World) :
  can_reduce_padding (game (snd (update_screen_size w))) = true ->
  exists w',
    (update_screen_size ;; reduce_padding) w = (Ret tt, w') /\
    game w' = game w.
Proof.
  intros Hcan.
  set (w1 := snd (update_screen_size w)) in *.
  assert (Hgrow : update_screen_size w = (Ret tt, w1)) by reflexivity.
  erewrite bind_ret by exact Hgrow.
  unfold reduce_padding. erewrite bind_ret by reflexivity. rewrite Hcan.
  eexists. split; [reflexivity|].
  subst w1. unfold update_screen_size, bind, mutate. fields.
  destruct (game w) as [wd ht gs rn ts ps pad lk zone].
  unfold set_screen_height, set_screen_width. fields.
  f_equal; lia.
Qed.

Lemma grow_then_shrink_restores_witness :
  exists w',
    (update_screen_size ;; reduce_padding) new_world = (Ret tt, w') /\
    game w' = game new_world.
Proof.
  apply (grow_then_shrink_restores new_world). reflexivity.
Defined.

(** ** change_direction_of_train *)

(** X10: change_direction_of_train returns from every engine state and
    touches nothing but the entry of the named train: the bounds, the
    passengers, the configuration, the lock, the names of the map and
    every other train are as before; for a name that is not in the map the
    call changes nothing at all and writes nothing. *)
Theorem change_direction_touches_one_train (name : string) (d : Direction)
        (w : World) :
  exists w',
    change_direction_of_train name d w = (Ret tt, w') /\
    game w' = set_trains (trains (game w')) (game w) /\
    dict_keys (trains (game w')) = dict_keys (trains (game w)) /\
    (forall other, other <> name ->
                   dict_get other (trains (game w')) = dict_get other (trains (game w))) /\
    (dict_mem name (trains (game w)) = false -> w' = w).
Proof.
  unfold change_direction_of_train. erewrite bind_ret by reflexivity.
  destruct (dict_get name (trains (game w))) as [t|] eqn:Eget.
  - eexists. split; [reflexivity|]. fields.
    split; [reflexivity|].
    split; [apply dict_set_keys; unfold dict_mem; rewrite Eget; reflexivity|].
    split; [intros other Hne; apply dict_get_set_other; exact Hne|].
    unfold dict_mem. rewrite Eget. discriminate.
  - exists w. split; [reflexivity|].
    split; [symmetry; apply set_trains_same|]. auto.
Qed.

(** ** update, on any engine *)

Lemma tick_train_runs (name : string) (w : World) :
  match dict_get name (trains (game w)) with
  | None => tick_train name w = (Ret false, w)
  | Some t =>
      exists dead w',
        tick_train name w = (Ret dead, w') /\
        game w' = ticked_game name t (game w) /\
        dead = Train_check_collisions
                 (fst (Train_update t (passengers (game w)) (grid_size (game w))))
                 (dict_set name
                    (fst (Train_update t (passengers (game w)) (grid_size (game w))))
                    (trains (game w)))
               || Train_check_out_of_bounds
                    (fst (Train_update t (passengers (game w)) (grid_size (game w))))
                    (screen_width (game w)) (screen_height (game w))
               || negb (alive (fst (Train_update t (passengers (game w))
                                                 (grid_size (game w)))))
  end.
Proof.
  destruct (dict_get name (trains (game w))) as [t|] eqn:Eget.
  - unfold tick_train. erewrite bind_ret by reflexivity. rewrite Eget.
    unfold ticked_game.
    destruct (Train_update t (passengers (game w)) (grid_size (game w)))
      as [t' ps'].
    eexists; eexists. split; [reflexivity|]. split; reflexivity.
  - unfold tick_train. erewrite bind_ret by reflexivity. rewrite Eget.
    reflexivity.
Qed.

Lemma dict_get_mem {V} (k : string) (d : dict V) (v : V) :
  dict_get k d = Some v -> dict_mem k d = true.
Proof. unfold dict_mem. intros ->. reflexivity. Qed.

Lemma tick_train_frame (name : string) (w : World) :
  exists dead w',
    tick_train name w = (Ret dead, w') /\
    lock (game w') = lock (game w) /\
    same_config (game w) (game w') /\
    dict_keys (trains (game w')) = dict_keys (trains (game w)).
Proof.
  pose proof (tick_train_runs name w) as H.
  destruct (dict_get name (trains (game w))) as [t|] eqn:Eget.
  - destruct H as (dead & w' & Hrun & Hg & _).
    exists dead, w'. split; [exact Hrun|]. rewrite Hg.
    unfold ticked_game, same_config; fields.
    split; [reflexivity|]. split; [repeat split|].
    rewrite Train_mark_head_on_keys.
    apply dict_set_keys. exact (dict_get_mem _ _ _ Eget).
  - exists false, w. split; [exact H|]. unfold same_config.
    repeat split; reflexivity.
Qed.

Lemma tick_trains_frame (names : list string) : forall w,
  exists dead w',
    tick_trains names w = (Ret dead, w') /\
    lock (game w') = lock (game w) /\
    same_config (game w) (game w') /\
    dict_keys (trains (game w')) = dict_keys (trains (game w)).
Proof.
  induction names as [|name rest IH]; intros w; cbn [tick_trains].
  - exists [], w. unfold same_config. repeat split; reflexivity.
  - destruct (tick_train_frame name w) as (dead & w1 & Hrun1 & Hl1 & Hc1 & Hk1).
    erewrite bind_ret by exact Hrun1.
    destruct (IH w1) as (others & w2 & Hrun2 & Hl2 & Hc2 & Hk2).
    erewrite bind_ret by exact Hrun2.
    eexists; exists w2. split; [reflexivity|].
    unfold same_config in *. repeat split; try congruence; try tauto;
      destruct Hc1 as (? & ? & ? & ?); destruct Hc2 as (? & ? & ? & ?); congruence.
Qed.

Lemma dict_pop_keys_incl {V} (k : string) (d : dict V) :
  incl (dict_keys (dict_pop k d)) (dict_keys d).
Proof.
  unfold dict_keys.
  induction d as [|[k0 v0] d IH]; simpl; [apply incl_refl|].
  destruct (String.eqb k k0); simpl.
  - apply incl_tl, incl_refl.
  - apply incl_cons; [left; reflexivity | apply incl_tl; exact IH].
Qed.

Lemma remove_train_frame (name : string) (w : World) :
  exists w',
    remove_train name w = (Ret tt, w') /\
    lock (game w') = lock (game w) /\
    same_config (game w) (game w') /\
    incl (dict_keys (trains (game w'))) (dict_keys (trains (game w))).
Proof.
  destruct (remove_train_runs name w) as (ps & w' & Hrun & Hg & _).
  exists w'. split; [exact Hrun|].
  split; [|split].
  - rewrite Hg. unfold removed_game.
    destruct (if dict_mem name (trains (game w)) then _ else _); [reflexivity|].
    destruct (can_reduce_padding _); reflexivity.
  - rewrite Hg. unfold removed_game, same_config.
    destruct (if dict_mem name (trains (game w)) then _ else _);
      [repeat split|].
    destruct (can_reduce_padding _); repeat split.
  - rewrite Hg, removed_game_trains.
    destruct (dict_mem name (trains (game w)));
      [apply dict_pop_keys_incl | apply incl_refl].
Qed.

Lemma remove_trains_frame (names : list string) : forall w,
  exists w',
    remove_trains names w = (Ret tt, w') /\
    lock (game w') = lock (game w) /\
    same_config (game w) (game w') /\
    incl (dict_keys (trains (game w'))) (dict_keys (trains (game w))).
Proof.
  induction names as [|name rest IH]; intros w; cbn [remove_trains].
  - exists w. unfold same_config. repeat split; auto. apply incl_refl.
  - destruct (remove_train_frame name w) as (w1 & Hrun1 & Hl1 & Hc1 & Hk1).
    erewrite bind_ret by exact Hrun1.
    destruct (IH w1) as (w2 & Hrun2 & Hl2 & Hc2 & Hk2).
    exists w2. split; [exact Hrun2|].
    split; [congruence|]. split.
    + unfold same_config in *.
      destruct Hc1 as (? & ? & ? & ?); destruct Hc2 as (? & ? & ? & ?).
      repeat split; congruence.
    + eapply incl_tran; eassumption.
Qed.

(** X11: from every engine state whose lock is free, update returns (it
    neither raises nor blocks), leaves the lock free, changes no
    configuration field and adds no train: every name of the map after the
    call was in the map before; with no train the call changes nothing. *)
Theorem update_frame (w : World) :
  lock (game w) = false ->
  exists w',
    update w = (Ret tt, w') /\
    lock (game w') = false /\
    same_config (game w) (game w') /\
    incl (dict_keys (trains (game w'))) (dict_keys (trains (game w))) /\
    (trains (game w) = [] -> w' = w).
Proof.
  intros Hlock.
  set (w1 := mkWorld (set_lock true (game w)) (tape w) (cursor w)
                     (trace w ++ [Acquire])).
  destruct (tick_trains_frame (dict_keys (trains (game w1))) w1)
    as (dead & w2 & Hrun2 & _ & Hc2 & Hk2).
  destruct (remove_trains_frame dead w2) as (w3 & Hrun3 & _ & Hc3 & Hk3).
  unfold update. erewrite bind_ret by reflexivity.
  destruct (trains (game w)) as [|kv ts] eqn:Ets.
  - exists w. unfold same_config. rewrite Ets.
    repeat split; auto. apply incl_refl.
  - unfold with_lock, acquire. rewrite Hlock. fold w1.
    erewrite bind_ret by reflexivity.
    erewrite bind_ret by exact Hrun2.
    rewrite Hrun3.
    eexists. split; [reflexivity|]. cbn [snd release game].
    split; [reflexivity|]. split; [|split; [|discriminate]].
    + unfold same_config in *. subst w1.
      cbn [grid_size screen_padding spawn_safe_zone running set_lock game] in *.
      destruct Hc2 as (? & ? & ? & ?); destruct Hc3 as (? & ? & ? & ?).
      repeat split; congruence.
    + subst w1. cbn [trains set_lock game] in *.
      rewrite Ets in Hk2.
      eapply incl_tran; [exact Hk3|]. rewrite Hk2. apply incl_refl.
Qed.

Lemma update_frame_witness :
  exists w',
    update world_after_add_A = (Ret tt, w') /\
    lock (game w') = false /\
    incl (dict_keys (trains (game w'))) ["A"%string].
Proof.
  destruct (update_frame world_after_add_A) as (w' & Hrun & Hl & _ & Hk & _).
  - reflexivity.
  - exists w'. auto.
Defined.

(** ** add_train on any engine whose lock is free *)

Lemma bind_ret_inv {A B} (c : M A) (k : A -> M B) (w w' : World) (b : B) :
  bind c k w = (Ret b, w') ->
  exists a w1, c w = (Ret a, w1) /\ k a w1 = (Ret b, w').
Proof.
  unfold bind. destruct (c w) as [[a | e |] w1]; intros H; try discriminate.
  exists a, w1. auto.
Qed.

Lemma reads_only_ret_inv {A} (c : M A) (w w' : World) (a : A) :
  reads_only c -> c w = (Ret a, w') -> game w' = game w.
Proof. intros Hc Hrun. destruct (Hc w) as [Hg _]. rewrite Hrun in Hg. exact Hg. Qed.

Lemma floordiv_ret_inv (a b q : Z) (w w' : World) :
  floordiv a b w = (Ret q, w') -> q = a / b /\ w' = w.
Proof.
  unfold floordiv. destruct (b =? 0); [discriminate|].
  intros H; injection H as <- <-. auto.
Qed.

Lemma spawn_attempts_safe (n : nat) : forall w r w',
  spawn_attempts n w = (Ret r, w') ->
  forall p, r = Some p -> is_position_safe (game w) (fst p) (snd p) = true.
Proof.
  induction n as [|n IH]; intros w r w' Hrun p Hp; cbn [spawn_attempts] in Hrun.
  - injection Hrun as <- _. discriminate.
  - apply bind_ret_inv in Hrun. destruct Hrun as (g & w0 & Hget & Hrun).
    injection Hget as <- <-.
    apply bind_ret_inv in Hrun. destruct Hrun as (qx & w0 & Hq1 & Hrun).
    apply floordiv_ret_inv in Hq1. destruct Hq1 as [_ ->].
    apply bind_ret_inv in Hrun. destruct Hrun as (cx & w1 & Hr1 & Hrun).
    apply (reads_only_ret_inv _ _ _ _ (reads_only_randint _ _)) in Hr1.
    apply bind_ret_inv in Hrun. destruct Hrun as (qy & w1' & Hq2 & Hrun).
    apply floordiv_ret_inv in Hq2. destruct Hq2 as [_ ->].
    apply bind_ret_inv in Hrun. destruct Hrun as (cy & w2 & Hr2 & Hrun).
    apply (reads_only_ret_inv _ _ _ _ (reads_only_randint _ _)) in Hr2.
    cbv zeta in Hrun.
    destruct (is_position_safe (game w) (cx * grid_size (game w))
                               (cy * grid_size (game w))) eqn:Hsafe.
    + injection Hrun as <- _. injection Hp as <-. exact Hsafe.
    + replace (game w) with (game w2) by congruence.
      exact (IH w2 r w' Hrun p Hp).
Qed.

Lemma center_position_ret_inv (w w' : World) (p : pos) :
  center_position w = (Ret p, w') -> p = center_of (game w).
Proof.
  unfold center_position. intros Hrun.
  apply bind_ret_inv in Hrun. destruct Hrun as (g & w0 & Hget & Hrun).
  injection Hget as <- <-.
  apply bind_ret_inv in Hrun. destruct Hrun as (hx & w0 & Hq & Hrun).
  apply floordiv_ret_inv in Hq. destruct Hq as [-> ->].
  apply bind_ret_inv in Hrun. destruct Hrun as (qx & w0 & Hq & Hrun).
  apply floordiv_ret_inv in Hq. destruct Hq as [-> ->].
  apply bind_ret_inv in Hrun. destruct Hrun as (hy & w0 & Hq & Hrun).
  apply floordiv_ret_inv in Hq. destruct Hq as [-> ->].
  apply bind_ret_inv in Hrun. destruct Hrun as (qy & w0 & Hq & Hrun).
  apply floordiv_ret_inv in Hq. destruct Hq as [-> ->].
  injection Hrun as <- _. reflexivity.
Qed.

Lemma get_safe_spawn_position_ret_inv (n : nat) (w w' : World) (p : pos) :
  get_safe_spawn_position n w = (Ret p, w') ->
  is_position_safe (game w) (fst p) (snd p) = true \/ p = center_of (game w).
Proof.
  unfold get_safe_spawn_position. intros Hrun.
  apply bind_ret_inv in Hrun. destruct Hrun as (r & w1 & Hatt & Hrun).
  destruct r as [q|].
  - injection Hrun as <- _. left. exact (spawn_attempts_safe n w _ w1 Hatt q eq_refl).
  - right. apply center_position_ret_inv in Hrun.
    rewrite (reads_only_ret_inv _ _ _ _ (reads_only_spawn_attempts n) Hatt) in Hrun.
    exact Hrun.
Qed.

(** Whatever the engine, a call of add_train with the lock free either
    changes nothing or ends as in the closed form. *)
Lemma add_train_game (d0 : Direction) (name : string) (w : World) :
  lock (game w) = false ->
  lock (game (snd (add_train d0 name w))) = false /\
  (game (snd (add_train d0 name w)) = game w
   \/ exists p ps,
       game (snd (add_train d0 name w)) = added_game d0 name p ps (game w) /\
       (is_position_safe (game w) (fst p) (snd p) = true
        \/ p = center_of (game w))).
Proof.
  intros Hlock.
  set (w1 := mkWorld (set_lock true (game w)) (tape w) (cursor w)
                     (trace w ++ [Acquire])).
  destruct (reads_only_get_safe_spawn_position 100 w1) as [Hg2 _].
  destruct (get_safe_spawn_position 100 w1) as [[p | e |] w2] eqn:Esp;
    cbn [snd] in Hg2.
  - set (w3 := mkWorld (set_trains
                          (dict_set name (Train_init d0 (fst p) (snd p) name)
                                    (trains (game w2))) (game w2))
                       (tape w2) (cursor w2) (trace w2 ++ [Mutate FTrains])).
    destruct (update_passengers_count_runs w3) as (ps & w4 & Hupc & Hg4 & _).
    assert (Hrun : add_train d0 name w
                   = update_screen_size (snd (release w4))).
    { unfold add_train. erewrite bind_ret; [reflexivity|].
      unfold with_lock, acquire. rewrite Hlock. fold w1.
      erewrite bind_ret by exact Esp.
      erewrite bind_ret by reflexivity.
      cbv beta. fold w3. rewrite Hupc. reflexivity. }
    rewrite Hrun. split; [reflexivity|]. right. exists p, ps. split.
    + unfold update_screen_size, bind, mutate, release. fields.
      rewrite Hg4. subst w3. fields. rewrite Hg2. subst w1. fields.
      unfold added_game. rewrite Hlock. reflexivity.
    + apply get_safe_spawn_position_ret_inv in Esp. exact Esp.
  - assert (Hrun : add_train d0 name w = (Raise e, snd (release w2))).
    { unfold add_train, bind at 1, with_lock, acquire. rewrite Hlock. fold w1.
      unfold bind at 1. rewrite Esp. reflexivity. }
    rewrite Hrun. split; [reflexivity|]. left.
    cbn [snd release game]. rewrite Hg2. apply set_lock_round. exact Hlock.
  - assert (Hrun : add_train d0 name w = (Hang, snd (release w2))).
    { unfold add_train, bind at 1, with_lock, acquire. rewrite Hlock. fold w1.
      unfold bind at 1. rewrite Esp. reflexivity. }
    rewrite Hrun. split; [reflexivity|]. left.
    cbn [snd release game]. rewrite Hg2. apply set_lock_round. exact Hlock.
Qed.

(** ** What every call keeps, with or without turns *)

Lemma Steady_init : Steady Game_init.
Proof.
  unfold Steady; simpl. repeat split; try reflexivity.
  exists 0. reflexivity.
Qed.

Lemma Steady_added (d0 : Direction) (name : string) (p : pos)
      (ps : list Passenger) (g : Game) :
  Steady g -> Steady (added_game d0 name p ps g).
Proof.
  intros (Hgrid & Hpad & Hzone & Hrun & Hsq & (z & Hz)).
  unfold Steady, added_game; fields.
  repeat split; auto; try lia.
  exists (z + 1). lia.
Qed.

Lemma Steady_removed (name : string) (ps : list Passenger) (g : Game) :
  Steady g -> Steady (removed_game name ps g).
Proof.
  intros (Hgrid & Hpad & Hzone & Hrun & Hsq & (z & Hz)).
  unfold removed_game.
  destruct (if dict_mem name (trains g) then _ else _) as [|kv ts].
  - unfold Steady; fields. repeat split; auto. exists 0. reflexivity.
  - destruct (can_reduce_padding _); unfold Steady; fields;
      repeat split; auto; try lia; [exists (z - 1) | exists z]; lia.
Qed.

Lemma Steady_ticked (name : string) (t : Train) (g : Game) :
  Steady g -> Steady (ticked_game name t g).
Proof. intros H. exact H. Qed.

Lemma tick_trains_preserves (P : Game -> Prop) :
  (forall name t g, P g -> dict_get name (trains g) = Some t ->
                    P (ticked_game name t g)) ->
  forall names w, P (game w) -> P (game (snd (tick_trains names w))).
Proof.
  intros Htick. induction names as [|name rest IH]; intros w HP;
    cbn [tick_trains]; [exact HP|].
  pose proof (tick_train_runs name w) as Hone.
  destruct (dict_get name (trains (game w))) as [t|] eqn:Eget.
  - destruct Hone as (dead & w1 & Hrun1 & Hg1 & _).
    erewrite bind_ret by exact Hrun1.
    assert (HP1 : P (game w1)) by (rewrite Hg1; apply Htick; assumption).
    specialize (IH w1 HP1).
    destruct (tick_trains_frame rest w1) as (others & w2 & Hrun2 & _).
    rewrite Hrun2 in IH. erewrite bind_ret by exact Hrun2. exact IH.
  - erewrite bind_ret by exact Hone.
    specialize (IH w HP).
    destruct (tick_trains_frame rest w) as (others & w2 & Hrun2 & _).
    rewrite Hrun2 in IH. erewrite bind_ret by exact Hrun2. exact IH.
Qed.

Lemma remove_trains_preserves (P : Game -> Prop) :
  (forall name ps g, P g -> P (removed_game name ps g)) ->
  forall names w, P (game w) -> P (game (snd (remove_trains names w))).
Proof.
  intros Hrem. induction names as [|name rest IH]; intros w HP;
    cbn [remove_trains]; [exact HP|].
  destruct (remove_train_runs name w) as (ps & w1 & Hrun1 & Hg1 & _).
  erewrite bind_ret by exact Hrun1.
  apply IH. rewrite Hg1. apply Hrem. exact HP.
Qed.

Lemma update_preserves (P : Game -> Prop) :
  (forall name t g, P g -> dict_get name (trains g) = Some t ->
                    P (ticked_game name t g)) ->
  (forall name ps g, P g -> P (removed_game name ps g)) ->
  (forall b g, P g -> P (set_lock b g)) ->
  forall w, lock (game w) = false -> P (game w) ->
            P (game (snd (update w))) /\ lock (game (snd (update w))) = false.
Proof.
  intros Htick Hrem Hlk w Hlock HP.
  set (w1 := mkWorld (set_lock true (game w)) (tape w) (cursor w)
                     (trace w ++ [Acquire])).
  assert (HP1 : P (game w1)) by (apply Hlk; exact HP).
  pose proof (tick_trains_preserves P Htick (dict_keys (trains (game w1))) w1 HP1)
    as HP2.
  destruct (tick_trains_frame (dict_keys (trains (game w1))) w1)
    as (dead & w2 & Hrun2 & _).
  rewrite Hrun2 in HP2. cbn [snd] in HP2.
  pose proof (remove_trains_preserves P Hrem dead w2 HP2) as HP3.
  destruct (remove_trains_frame dead w2) as (w3 & Hrun3 & _).
  rewrite Hrun3 in HP3. cbn [snd] in HP3.
  unfold update. erewrite bind_ret by reflexivity.
  destruct (trains (game w)) as [|kv ts] eqn:Ets.
  - split; [exact HP | exact Hlock].
  - unfold with_lock, acquire. rewrite Hlock. fold w1.
    erewrite bind_ret by reflexivity.
    erewrite bind_ret by exact Hrun2.
    rewrite Hrun3. cbn [snd release game].
    split; [apply Hlk; exact HP3 | reflexivity].
Qed.

Lemma change_direction_game (name : string) (d : Direction) (w : World) :
  game (snd (change_direction_of_train name d w)) = game w
  \/ exists t,
      dict_get name (trains (game w)) = Some t /\
      game (snd (change_direction_of_train name d w))
      = set_trains (dict_set name (Train_change_direction t d) (trains (game w)))
                   (game w).
Proof.
  unfold change_direction_of_train. erewrite bind_ret by reflexivity.
  destruct (dict_get name (trains (game w))) as [t|] eqn:Eget.
  - right. exists t. split; reflexivity.
  - left. reflexivity.
Qed.

(** X12: in every world reached from a new engine by add_train,
    remove_train, update and change_direction_of_train calls, however the
    calls end and whatever the trains do, the configuration is the one of
    a new engine, the lock is free, the world is square and its width
    differs from the original 200 by a whole number of paddings of 100. *)
Theorem steady_under_steering (d0 : Direction) (w : World) :
  reachable_steered d0 w ->
  grid_size (game w) = 20 /\ screen_padding (game w) = 100 /\
  spawn_safe_zone (game w) = 3 /\ running (game w) = true /\
  lock (game w) = false /\
  screen_height (game w) = screen_width (game w) /\
  (100 | screen_width (game w) - ORIGINAL_SCREEN_WIDTH).
Proof.
  intros Hreach.
  assert (H : Steady (game w) /\ lock (game w) = false).
  { induction Hreach as [tp | w c Hreach [HS Hlock]].
    - split; [apply Steady_init | reflexivity].
    - destruct c as [[name | name |] | name d]; cbn [command call].
      + destruct (add_train_game d0 name w Hlock) as [Hl [Hsame | (p & ps & Hg & _)]].
        * split; [rewrite Hsame; exact HS | exact Hl].
        * split; [rewrite Hg; apply Steady_added; exact HS | exact Hl].
      + destruct (remove_train_runs name w) as (ps & w' & Hrun & Hg & _).
        destruct (remove_train_frame name w) as (w'' & Hrun' & Hl & _).
        rewrite Hrun in *. injection Hrun' as <-. cbn [snd].
        split; [rewrite Hg; apply Steady_removed; exact HS | congruence].
      + apply (update_preserves Steady).
        * intros name t g HSg _. apply Steady_ticked; exact HSg.
        * intros name ps g HSg. apply Steady_removed; exact HSg.
        * intros b g HSg. exact HSg.
        * exact Hlock.
        * exact HS.
      + destruct (change_direction_game name d w) as [-> | (t & _ & ->)]; auto. }
  destruct H as [(Hgrid & Hpad & Hzone & Hrun & Hsq & Hdiv) Hlock].
  repeat split; assumption.
Qed.

Lemma steered_world_reachable : reachable_steered RIGHT steered_world.
Proof.
  unfold steered_world.
  repeat apply steer_command. apply steer_init.
Qed.

Lemma steady_under_steering_witness :
  grid_size (game steered_world) = 20 /\
  screen_padding (game steered_world) = 100 /\
  spawn_safe_zone (game steered_world) = 3 /\
  running (game steered_world) = true /\
  lock (game steered_world) = false /\
  screen_height (game steered_world) = screen_width (game steered_world) /\
  (100 | screen_width (game steered_world) - ORIGINAL_SCREEN_WIDTH).
Proof.
  apply (steady_under_steering RIGHT steered_world).
  exact steered_world_reachable.
Defined.

(** ** The floor of the bounds when trains turn *)

Lemma marked_incl (D D' : list string) (g : Game) :
  marked D g -> incl D D' -> marked D' g.
Proof.
  intros Hm Hincl k t Hget. destruct (Hm k t Hget) as [Hweak Hin].
  split; [exact Hweak|]. intros Hnot. apply Hin. intros HD. apply Hnot, Hincl, HD.
Qed.

Lemma dict_get_pop_inv {V} (k name : string) (d : dict V) (v : V) :
  NoDup (dict_keys d) ->
  dict_get k (dict_pop name d) = Some v ->
  k <> name /\ dict_get k d = Some v.
Proof.
  intros Hnd Hget.
  assert (Hne : k <> name).
  { intros ->. pose proof (dict_pop_mem name d Hnd) as Hmem.
    unfold dict_mem in Hmem. rewrite Hget in Hmem. discriminate. }
  split; [exact Hne|]. rewrite dict_get_pop_other in Hget by exact Hne. exact Hget.
Qed.

Lemma dict_get_In_values {V} (k : string) (d : dict V) (v : V) :
  dict_get k d = Some v -> In v (dict_values d).
Proof.
  unfold dict_values.
  induction d as [|[k' v'] d IH]; simpl; [discriminate|].
  destruct (String.eqb k k'); [intros H; injection H as <-; auto | auto].
Qed.

Lemma can_reduce_padding_all (g : Game) (k : string) (t : Train) :
  can_reduce_padding g = true ->
  dict_get k (trains g) = Some t ->
  past_threshold g (position t) = false.
Proof.
  unfold can_reduce_padding. intros Hcan Hget.
  rewrite forallb_forall in Hcan.
  specialize (Hcan t (dict_get_In_values _ _ _ Hget)).
  apply andb_prop in Hcan. destruct Hcan as [Hhead _].
  apply negb_true_iff in Hhead. exact Hhead.
Qed.

Lemma Train_update_head (t : Train) (ps : list Passenger) :
  0 <= fst (position t) -> 0 <= snd (position t) ->
  head_from (-20) (fst (Train_update t ps 20)).
Proof.
  intros Hx Hy. unfold Train_update, head_from.
  destruct (existsb _ ps); cbn [fst position];
    destruct (match new_direction t with Some d' => d' | None => direction t end);
    cbn [step_of fst snd]; lia.
Qed.

Lemma out_of_bounds_false (t : Train) (width height : Z) :
  Train_check_out_of_bounds t width height = false ->
  0 <= fst (position t) < width /\ 0 <= snd (position t) < height.
Proof.
  unfold Train_check_out_of_bounds.
  rewrite !orb_false_iff, !Z.ltb_ge.
  intros [[[Hx0 Hxw] Hy0] Hyh].
  destruct (Z.geb_spec (fst (position t)) width); [discriminate|].
  destruct (Z.geb_spec (snd (position t)) height); [discriminate|].
  lia.
Qed.

Ltac fields_in H :=
  cbn [screen_width screen_height grid_size running trains passengers
       screen_padding lock spawn_safe_zone game tape cursor trace
       position wagons direction new_direction alive agent_name fst snd
       set_screen_width set_screen_height set_trains set_passengers set_lock]
    in H.

Lemma removed_game_marked (name : string) (rest : list string)
      (ps : list Passenger) (g : Game) :
  Steady g -> 100 <= screen_width g -> NoDup (dict_keys (trains g)) ->
  marked (name :: rest) g ->
  100 <= screen_width (removed_game name ps g) /\
  NoDup (dict_keys (trains (removed_game name ps g))) /\
  marked rest (removed_game name ps g).
Proof.
  intros (Hgrid & Hpad & Hzone & Hrun & Hsq & (z & Hz)) Hw Hnd Hm.
  unfold ORIGINAL_SCREEN_WIDTH in Hz.
  pose proof (removed_game_trains name ps g) as Hts.
  set (ts := if dict_mem name (trains g) then dict_pop name (trains g)
             else trains g) in *.
  assert (Hnd' : NoDup (dict_keys ts)).
  { subst ts. destruct (dict_mem name (trains g));
      [apply dict_pop_NoDup|]; exact Hnd. }
  assert (Hold : forall k t, dict_get k ts = Some t ->
                             k <> name /\ dict_get k (trains g) = Some t).
  { subst ts. intros k t Hget.
    destruct (dict_mem name (trains g)) eqn:Hmem.
    - apply dict_get_pop_inv; assumption.
    - split; [|exact Hget]. intros ->.
      apply dict_get_mem in Hget. congruence. }
  assert (Hkept : forall k t, dict_get k ts = Some t ->
                              head_from (-20) t /\ (~ In k rest -> inside g t)).
  { intros k t Hget. destruct (Hold k t Hget) as [Hne Hget'].
    destruct (Hm k t Hget') as [Hweak Hin].
    split; [exact Hweak|]. intros Hnot. apply Hin.
    intros [Heq | Hrest]; [apply Hne; symmetry; exact Heq | exact (Hnot Hrest)]. }
  split; [|split].
  - unfold removed_game. fold ts.
    destruct ts as [|[k0 t0] ts'] eqn:Ets; [fields; unfold ORIGINAL_SCREEN_WIDTH; lia|].
    destruct (can_reduce_padding (set_trains ((k0, t0) :: ts') g)) eqn:Ecan;
      fields; [|exact Hw].
    assert (Hget0 : dict_get k0 ((k0, t0) :: ts') = Some t0)
      by (cbn [dict_get]; rewrite String.eqb_refl; reflexivity).
    pose proof (can_reduce_padding_all (set_trains ((k0, t0) :: ts') g) k0 t0
                                       Ecan Hget0) as Hfree.
    destruct (Hkept k0 t0 Hget0) as [[Hx0 Hy0] _].
    unfold past_threshold in Hfree. fields_in Hfree.
    rewrite orb_false_iff in Hfree. destruct Hfree as [Hfx _].
    destruct (Z.geb_spec (fst (position t0)) (screen_width g - screen_padding g - 50));
      [discriminate|].
    lia.
  - rewrite Hts. exact Hnd'.
  - intros k t Hget. rewrite Hts in Hget.
    destruct (Hkept k t Hget) as [Hweak Hin].
    split; [exact Hweak|]. intros Hnot. specialize (Hin Hnot).
    unfold removed_game. fold ts.
    destruct ts as [|[k0 t0] ts'] eqn:Ets; [discriminate Hget|].
    destruct (can_reduce_padding (set_trains ((k0, t0) :: ts') g)) eqn:Ecan;
      [|exact Hin].
    pose proof (can_reduce_padding_all (set_trains ((k0, t0) :: ts') g) k t
                                       Ecan Hget) as Hfree.
    unfold past_threshold in Hfree. fields_in Hfree.
    rewrite orb_false_iff in Hfree. destruct Hfree as [Hfx Hfy].
    destruct (Z.geb_spec (fst (position t)) (screen_width g - screen_padding g - 50));
      [discriminate|].
    destruct (Z.geb_spec (snd (position t)) (screen_height g - screen_padding g - 50));
      [discriminate|].
    unfold inside in *. fields. lia.
Qed.

Lemma ticked_game_marked (name : string) (t : Train) (D : list string)
      (b : bool) (g : Game) :
  Steady g -> marked D g -> ~ In name D ->
  dict_get name (trains g) = Some t ->
  (b = false ->
   Train_check_out_of_bounds
     (fst (Train_update t (passengers g) (grid_size g)))
     (screen_width g) (screen_height g) = false) ->
  marked (if b then name :: D else D) (ticked_game name t g).
Proof.
  intros (Hgrid & _) Hm Hfresh Hget Hflag k t1 Hget1.
  unfold ticked_game in Hget1. fields_in Hget1.
  apply Train_mark_head_on_get in Hget1.
  destruct Hget1 as (t0 & Hget0 & Hsame).
  assert (Hpos : position t1 = position t0)
    by (destruct Hsame as [-> | ->]; reflexivity).
  unfold head_from, inside. rewrite Hpos.
  destruct (String.eqb_spec k name) as [->|Hne].
  - rewrite dict_get_set in Hget0. injection Hget0 as <-.
    destruct (Hm name t Hget) as [_ Hin]. specialize (Hin Hfresh).
    split.
    + rewrite Hgrid. apply Train_update_head; apply Hin.
    + destruct b; [intros Hnot; exfalso; apply Hnot; left; reflexivity|].
      intros _. apply out_of_bounds_false. apply Hflag. reflexivity.
  - rewrite dict_get_set_other in Hget0 by exact Hne.
    destruct (Hm k t0 Hget0) as [Hweak Hin].
    split; [exact Hweak|]. intros Hnot. apply Hin.
    intros HD. apply Hnot. destruct b; [right|]; exact HD.
Qed.

Lemma tick_trains_marked (names : list string) : forall w D,
  Steady (game w) -> NoDup (dict_keys (trains (game w))) ->
  marked D (game w) ->
  NoDup names -> (forall n, In n names -> ~ In n D) ->
  exists dead w',
    tick_trains names w = (Ret dead, w') /\
    marked (dead ++ D) (game w') /\
    Steady (game w') /\
    NoDup (dict_keys (trains (game w'))) /\
    screen_width (game w') = screen_width (game w) /\
    lock (game w') = lock (game w).
Proof.
  induction names as [|name rest IH]; intros w D HS Hnd Hm Hnames Hfresh;
    cbn [tick_trains].
  - exists [], w. split; [reflexivity|]. split; [exact Hm|].
    split; [exact HS|]. split; [exact Hnd|]. split; reflexivity.
  - inversion Hnames as [|? ? Hnotin Hrest]; subst.
    pose proof (tick_train_runs name w) as Hone.
    destruct (dict_get name (trains (game w))) as [t|] eqn:Eget.
    + destruct Hone as (dead & w1 & Hrun1 & Hg1 & Hdead).
      erewrite bind_ret by exact Hrun1.
      assert (Hm1 : marked (if dead then name :: D else D) (game w1)).
      { rewrite Hg1. apply ticked_game_marked; auto.
        - apply Hfresh. left; reflexivity.
        - intros Hfalse. rewrite Hfalse in Hdead. symmetry in Hdead.
          rewrite !orb_false_iff in Hdead. tauto. }
      destruct (IH w1 (if dead then name :: D else D)) as
          (others & w2 & Hrun2 & Hm2 & HS2 & Hnd2 & Hw2 & Hl2).
      * rewrite Hg1. exact HS.
      * rewrite Hg1. unfold ticked_game; fields.
        rewrite Train_mark_head_on_keys. apply dict_set_NoDup. exact Hnd.
      * exact Hm1.
      * exact Hrest.
      * intros n Hn HD. destruct dead.
        -- destruct HD as [<- | HD]; [contradiction|].
           apply (Hfresh n); [right; exact Hn | exact HD].
        -- apply (Hfresh n); [right; exact Hn | exact HD].
      * erewrite bind_ret by exact Hrun2.
        eexists; exists w2. split; [reflexivity|].
        split; [|split; [exact HS2|split; [exact Hnd2|split]]].
        -- eapply marked_incl; [exact Hm2|].
           intros x Hx. apply in_app_or in Hx. destruct dead.
           ++ destruct Hx as [Hx | [<- | Hx]].
              ** right. apply in_or_app. left; exact Hx.
              ** left; reflexivity.
              ** right. apply in_or_app. right; exact Hx.
           ++ apply in_or_app. exact Hx.
        -- rewrite Hw2, Hg1. reflexivity.
        -- rewrite Hl2, Hg1. reflexivity.
    + erewrite bind_ret by exact Hone.
      destruct (IH w D HS Hnd Hm Hrest) as
          (others & w2 & Hrun2 & Hm2 & HS2 & Hnd2 & Hw2 & Hl2).
      { intros n Hn. apply Hfresh. right; exact Hn. }
      erewrite bind_ret by exact Hrun2.
      exists others, w2. split; [reflexivity|]. split; [exact Hm2|].
      split; [exact HS2|]. split; [exact Hnd2|]. split; assumption.
Qed.

Lemma remove_trains_marked (names : list string) : forall w,
  Steady (game w) -> 100 <= screen_width (game w) ->
  NoDup (dict_keys (trains (game w))) ->
  marked names (game w) ->
  exists w',
    remove_trains names w = (Ret tt, w') /\
    Steady (game w') /\ 100 <= screen_width (game w') /\
    NoDup (dict_keys (trains (game w'))) /\
    marked [] (game w') /\
    lock (game w') = lock (game w).
Proof.
  induction names as [|name rest IH]; intros w HS Hw Hnd Hm; cbn [remove_trains].
  - exists w. split; [reflexivity|]. split; [exact HS|]. split; [exact Hw|].
    split; [exact Hnd|]. split; [exact Hm | reflexivity].
  - destruct (remove_train_runs name w) as (ps & w1 & Hrun1 & Hg1 & _).
    destruct (remove_train_frame name w) as (w1' & Hrun1' & Hl1 & _).
    rewrite Hrun1 in Hrun1'. injection Hrun1' as <-.
    erewrite bind_ret by exact Hrun1.
    destruct (removed_game_marked name rest ps (game w) HS Hw Hnd Hm)
      as (Hw1 & Hnd1 & Hm1).
    destruct (IH w1) as (w2 & Hrun2 & HS2 & Hw2 & Hnd2 & Hm2 & Hl2);
      try (rewrite Hg1; assumption).
    { rewrite Hg1. apply Steady_removed. exact HS. }
    exists w2. split; [exact Hrun2|]. split; [exact HS2|]. split; [exact Hw2|].
    split; [exact Hnd2|]. split; [exact Hm2 | congruence].
Qed.

Lemma Floor_init : Floor Game_init.
Proof.
  split; [apply Steady_init|]. split; [unfold Game_init; fields; unfold ORIGINAL_SCREEN_WIDTH; lia|].
  split; [constructor|]. intros k t Hget. discriminate Hget.
Qed.

Lemma spawn_position_inside (g : Game) (p : pos) :
  Steady g -> 100 <= screen_width g ->
  is_position_safe g (fst p) (snd p) = true \/ p = center_of g ->
  0 <= fst p < screen_width g + 100 /\ 0 <= snd p < screen_height g + 100.
Proof.
  intros (Hgrid & Hpad & Hzone & Hrun & Hsq & _) Hw [Hsafe | ->].
  - unfold is_position_safe in Hsafe; cbv zeta in Hsafe.
    destruct (near_border g (fst p) (snd p)) eqn:Hb; [discriminate|].
    unfold near_border in Hb; cbv zeta in Hb.
    rewrite !Z.gtb_ltb, !orb_false_iff, !Z.ltb_ge, Hgrid, Hzone in Hb. lia.
  - unfold center_of; cbn [fst snd]. rewrite Hsq, Hgrid.
    assert (Hhalf : 0 <= screen_width g / 2 <= screen_width g).
    { split; [apply Z.div_pos; lia | apply Z.div_le_upper_bound; lia]. }
    assert (Hq : 0 <= screen_width g / 2 / 20) by (apply Z.div_pos; lia).
    pose proof (Z.mul_div_le (screen_width g / 2) 20 ltac:(lia)) as Hle.
    lia.
Qed.

Lemma add_train_Floor (d0 : Direction) (name : string) (w : World) :
  Floor (game w) -> lock (game w) = false ->
  Floor (game (snd (add_train d0 name w))) /\
  lock (game (snd (add_train d0 name w))) = false.
Proof.
  intros (HS & Hw & Hnd & Hm) Hlock.
  destruct (add_train_game d0 name w Hlock) as [Hl [Hsame | (p & ps & Hg & Hp)]].
  - split; [rewrite Hsame; exact (conj HS (conj Hw (conj Hnd Hm))) | exact Hl].
  - split; [|exact Hl]. rewrite Hg.
    pose proof (spawn_position_inside (game w) p HS Hw Hp) as [Hx Hy].
    pose proof HS as (_ & Hpad & _).
    split; [apply Steady_added; exact HS|].
    split; [unfold added_game; fields; lia|].
    split; [unfold added_game; fields; apply dict_set_NoDup; exact Hnd|].
    intros k t Hget. unfold added_game in Hget. fields_in Hget.
    unfold inside, head_from, added_game. fields. rewrite Hpad.
    destruct (String.eqb_spec k name) as [->|Hne].
    + rewrite dict_get_set in Hget. injection Hget as <-.
      unfold Train_init. fields. split; [lia|]. intros _. lia.
    + rewrite dict_get_set_other in Hget by exact Hne.
      destruct (Hm k t Hget) as [Hweak Hin].
      split; [exact Hweak|]. intros Hnot. specialize (Hin Hnot).
      unfold inside in Hin. lia.
Qed.

Lemma remove_train_Floor (name : string) (w : World) :
  Floor (game w) ->
  Floor (game (snd (remove_train name w))) /\
  lock (game (snd (remove_train name w))) = lock (game w).
Proof.
  intros (HS & Hw & Hnd & Hm).
  destruct (remove_train_runs name w) as (ps & w1 & Hrun1 & Hg1 & _).
  destruct (remove_train_frame name w) as (w1' & Hrun1' & Hl1 & _).
  rewrite Hrun1 in Hrun1'. injection Hrun1' as <-.
  rewrite Hrun1. cbn [snd]. split; [|exact Hl1]. rewrite Hg1.
  destruct (removed_game_marked name [] ps (game w) HS Hw Hnd)
    as (Hw1 & Hnd1 & Hm1).
  { eapply marked_incl; [exact Hm | intros x []]. }
  split; [apply Steady_removed; exact HS|].
  split; [exact Hw1|]. split; [exact Hnd1 | exact Hm1].
Qed.

Lemma update_Floor (w : World) :
  Floor (game w) -> lock (game w) = false ->
  Floor (game (snd (update w))) /\ lock (game (snd (update w))) = false.
Proof.
  intros (HS & Hw & Hnd & Hm) Hlock.
  set (w1 := mkWorld (set_lock true (game w)) (tape w) (cursor w)
                     (trace w ++ [Acquire])).
  destruct (tick_trains_marked (dict_keys (trains (game w1))) w1 [])
    as (dead & w2 & Hrun2 & Hm2 & HS2 & Hnd2 & Hw2 & _);
    try assumption.
  { intros n _ []. }
  rewrite app_nil_r in Hm2.
  destruct (remove_trains_marked dead w2 HS2) as
      (w3 & Hrun3 & HS3 & Hw3 & Hnd3 & Hm3 & _); try assumption.
  { rewrite Hw2. exact Hw. }
  unfold update. erewrite bind_ret by reflexivity.
  destruct (trains (game w)) as [|kv ts] eqn:Ets.
  - cbn [snd ret]. split; [|exact Hlock].
    split; [exact HS|]. split; [exact Hw|]. split; [|exact Hm].
    rewrite Ets. constructor.
  - unfold with_lock, acquire. rewrite Hlock. fold w1.
    erewrite bind_ret by reflexivity.
    erewrite bind_ret by exact Hrun2.
    rewrite Hrun3. cbn [snd release game].
    split; [|reflexivity].
    split; [exact HS3|]. split; [exact Hw3|]. split; [exact Hnd3 | exact Hm3].
Qed.

Lemma change_direction_Floor (name : string) (d : Direction) (w : World) :
  Floor (game w) ->
  Floor (game (snd (change_direction_of_train name d w))) /\
  lock (game (snd (change_direction_of_train name d w))) = lock (game w).
Proof.
  intros (HS & Hw & Hnd & Hm).
  destruct (change_direction_game name d w) as [-> | (t & Hget & ->)].
  - split; [exact (conj HS (conj Hw (conj Hnd Hm))) | reflexivity].
  - split; [|reflexivity].
    split; [exact HS|]. split; [exact Hw|].
    split; [fields; apply dict_set_NoDup; exact Hnd|].
    intros k t1 Hget1. fields_in Hget1.
    destruct (String.eqb_spec k name) as [->|Hne].
    + rewrite dict_get_set in Hget1. injection Hget1 as <-.
      exact (Hm name t Hget).
    + rewrite dict_get_set_other in Hget1 by exact Hne.
      exact (Hm k t1 Hget1).
Qed.

Lemma reachable_steered_Floor (d0 : Direction) (w : World) :
  reachable_steered d0 w -> Floor (game w) /\ lock (game w) = false.
Proof.
  induction 1 as [tp | w c Hreach [HF Hlock]].
  - split; [apply Floor_init | reflexivity].
  - destruct c as [[name | name |] | name d]; cbn [command call].
    + apply add_train_Floor; assumption.
    + destruct (remove_train_Floor name w HF) as [HF' Hl'].
      split; [exact HF' | congruence].
    + apply update_Floor; assumption.
    + destruct (change_direction_Floor name d w HF) as [HF' Hl'].
      split; [exact HF' | congruence].
Qed.

(** X13: with Train.update, the out-of-bounds test and change_direction
    as section 4.5 of the spec describes them, in every world reached from
    a new engine by add_train, remove_train, update and
    change_direction_of_train calls, width and height are at least 100, so
    they stay positive although they can go below the original 200, and
    the head of every train of the map is inside the world. *)
Theorem bounds_floor_under_steering (d0 : Direction) (w : World) :
  reachable_steered d0 w ->
  100 <= screen_width (game w) /\ 100 <= screen_height (game w) /\
  forall name t,
    dict_get name (trains (game w)) = Some t ->
    0 <= fst (position t) < screen_width (game w) /\
    0 <= snd (position t) < screen_height (game w).
Proof.
  intros Hreach.
  destruct (reachable_steered_Floor d0 w Hreach)
    as [((_ & _ & _ & _ & Hsq & _) & Hw & _ & Hm) _].
  split; [exact Hw|]. split; [rewrite Hsq; exact Hw|].
  intros name t Hget. destruct (Hm name t Hget) as [_ Hin].
  apply Hin. intros [].
Qed.

Lemma bounds_floor_under_steering_witness :
  100 <= screen_width (game steered_world) /\
  100 <= screen_height (game steered_world) /\
  forall name t,
    dict_get name (trains (game steered_world)) = Some t ->
    0 <= fst (position t) < screen_width (game steered_world) /\
    0 <= snd (position t) < screen_height (game steered_world).
Proof.
  apply (bounds_floor_under_steering RIGHT steered_world).
  exact steered_world_reachable.
Defined.

(** The floor of X13 is reached: the run with turns ends in a world of
    100 x 100 with "A" at (40, 40). *)
Lemma steered_world_at_floor :
  screen_width (game steered_world) = 100
  /\ screen_height (game steered_world) = 100
  /\ dict_get "A" (trains (game steered_world))
     = Some (mkTrain (40, 40) [] UP None true "A").
Proof. vm_compute. repeat split; reflexivity. Qed.

(** ** remove_train, passengers and bounds *)

(** X14: remove_train returns from every engine state, for every name.
    When no train is left, the passenger list is empty and the bounds are
    the original ones.  When trains are left, there are
    max(1, floor(n / 2)) passengers for the n trains left, and the bounds
    lose exactly one screen_padding if the shrink test passes on the
    trains that are left (the removed train does not count), and are
    unchanged otherwise. *)
Theorem remove_train_resizes (name : string) (w : World) :
  exists w',
    remove_train name w = (Ret tt, w') /\
    (trains (game w') = [] ->
     passengers (game w') = [] /\
     screen_width (game w') = ORIGINAL_SCREEN_WIDTH /\
     screen_height (game w') = ORIGINAL_SCREEN_HEIGHT) /\
    (trains (game w') <> [] ->
     List.length (passengers (game w'))
     = Nat.max 1 (Nat.div (List.length (trains (game w'))) 2) /\
     if can_reduce_padding (set_trains (trains (game w')) (game w))
     then screen_width (game w') = screen_width (game w) - screen_padding (game w)
          /\ screen_height (game w') = screen_height (game w) - screen_padding (game w)
     else screen_width (game w') = screen_width (game w)
          /\ screen_height (game w') = screen_height (game w)).
Proof.
  destruct (remove_train_runs name w) as (ps & w' & Hrun & Hg & Hlen).
  exists w'. split; [exact Hrun|].
  rewrite Hg. unfold removed_game.
  set (ts := if dict_mem name (trains (game w))
             then dict_pop name (trains (game w)) else trains (game w)) in *.
  destruct ts as [|kv ts'] eqn:Ets.
  - fields. split; [auto|]. intros Hne; congruence.
  - destruct (can_reduce_padding (set_trains (kv :: ts') (game w))) eqn:Ecan;
      fields; (split; [discriminate|]); intros _; rewrite Ecan; auto.
Qed.

(** ** The spawn search with no train *)

Lemma randint_draws_once (a b : Z) (w : World) :
  a <= b ->
  exists v,
    randint a b w
    = (Ret v, mkWorld (game w) (tape w) (S (cursor w)) (trace w)) /\
    a <= v <= b.
Proof.
  intros Hab. unfold randint.
  destruct (Z.leb_spec a b); [|lia].
  eexists. split; [reflexivity|].
  pose proof (Z.mod_pos_bound (tape w (cursor w)) (b - a + 1)). lia.
Qed.

(** X15: the candidates of the spawn search are never near a border: with
    a positive cell size, non-empty spawn ranges and no train,
    get_safe_spawn_position with at least one attempt returns its first
    candidate, which is safe, after exactly two draws. *)
Theorem get_safe_spawn_position_first_try (n : nat) (w : World) :
  0 < grid_size (game w) ->
  spawn_ranges_ok (game w) ->
  trains (game w) = [] ->
  exists p,
    get_safe_spawn_position (S n) w
    = (Ret p, mkWorld (game w) (tape w) (S (S (cursor w))) (trace w)) /\
    is_position_safe (game w) (fst p) (snd p) = true.
Proof.
  intros Hgrid (Hnz & Hx & Hy) Hnone.
  destruct (randint_draws_once _ _ w Hx) as (cx & Hr1 & Hcx).
  set (w1 := mkWorld (game w) (tape w) (S (cursor w)) (trace w)) in *.
  destruct (randint_draws_once _ _ w1 Hy) as (cy & Hr2 & Hcy).
  assert (Hsafe : is_position_safe (game w) (cx * grid_size (game w))
                                   (cy * grid_size (game w)) = true).
  { unfold is_position_safe; cbv zeta. rewrite Hnone.
    assert (Hb : near_border (game w) (cx * grid_size (game w))
                             (cy * grid_size (game w)) = false).
    { unfold near_border; cbv zeta.
      pose proof (Z.mul_div_le (screen_width (game w)) (grid_size (game w)) Hgrid).
      pose proof (Z.mul_div_le (screen_height (game w)) (grid_size (game w)) Hgrid).
      rewrite !Z.gtb_ltb, !orb_false_iff, !Z.ltb_ge. nia. }
    rewrite Hb. reflexivity. }
  exists (cx * grid_size (game w), cy * grid_size (game w)).
  split; [|exact Hsafe].
  assert (Hatt : spawn_attempts (S n) w
                 = (Ret (Some (cx * grid_size (game w), cy * grid_size (game w))),
                    mkWorld (game w) (tape w) (S (S (cursor w))) (trace w))).
  { cbn [spawn_attempts].
    erewrite bind_ret by reflexivity.
    erewrite bind_ret by (apply floordiv_runs; exact Hnz).
    erewrite bind_ret by exact Hr1.
    erewrite bind_ret by (apply floordiv_runs; exact Hnz).
    erewrite bind_ret by exact Hr2.
    cbv zeta. rewrite Hsafe. reflexivity. }
  unfold get_safe_spawn_position.
  erewrite bind_ret by exact Hatt. reflexivity.
Qed.

Lemma get_safe_spawn_position_first_try_witness :
  exists p,
    get_safe_spawn_position 100 new_world
    = (Ret p, mkWorld (game new_world) (tape new_world) 2 (trace new_world)) /\
    is_position_safe (game new_world) (fst p) (snd p) = true.
Proof.
  apply (get_safe_spawn_position_first_try 99 new_world).
  - reflexivity.
  - unfold spawn_ranges_ok. simpl. repeat split; [discriminate | lia | lia].
  - reflexivity.
Defined.


(** ** The spawn search in a world below the minimum *)

(** An empty spawn range makes the search raise at its first attempt,
    before the centre fallback. *)
Lemma get_safe_spawn_position_empty_range (n : nat) (w : World) :
  grid_size (game w) <> 0 ->
  screen_width (game w) / grid_size (game w) - spawn_safe_zone (game w)
  < spawn_safe_zone (game w) ->
  get_safe_spawn_position (S n) w = (Raise ValueError, w).
Proof.
  intros Hgrid Hempty.
  unfold get_safe_spawn_position. cbn [spawn_attempts].
  unfold bind at 1. unfold bind at 1. cbn [get_game].
  unfold bind at 1. rewrite floordiv_runs by exact Hgrid.
  unfold bind at 1, randint.
  destruct (Z.leb_spec (spawn_safe_zone (game w))
                       (screen_width (game w) / grid_size (game w)
                        - spawn_safe_zone (game w))); [lia|].
  reflexivity.
Qed.

(** C3: the code at the failing input.  The run add_train("A"), a turn to
    the left and a tick, a turn upwards and a tick, remove_train("B")
    twice is made of calls of the engine only and ends with "A" at
    (40, 40) in a world of 100 x 100, the lock free.  There the spawn range
    is randint(3, 100 // 20 - 3): get_safe_spawn_position raises ValueError
    before it reaches its centre fallback, add_train("C") passes the
    exception on to its caller, and the engine is left as it was. *)
Theorem add_train_raises_after_turns :
  reachable_steered RIGHT steered_world /\
  dict_get "A" (trains (game steered_world))
  = Some (mkTrain (40, 40) [] UP None true "A") /\
  screen_width (game steered_world) = 100 /\
  screen_height (game steered_world) = 100 /\
  lock (game steered_world) = false /\
  fst (get_safe_spawn_position 100 steered_world) = Raise ValueError /\
  fst (get_safe_spawn_position 100 (after_acquire steered_world))
  = Raise ValueError /\
  fst (add_train RIGHT "C" steered_world) = Raise ValueError /\
  game (snd (add_train RIGHT "C" steered_world)) = game steered_world.
Proof.
  split; [exact steered_world_reachable|].
  vm_compute. repeat split; reflexivity.
Qed.

(** ** A head-on meeting *)

(** With "A" at (60, 200) heading right and "B" at (100, 200) heading
    left, one tick moves both heads to (80, 200): "B", ticked second, is
    removed in that tick and "A" is marked dead; the next tick removes
    "A". *)
Lemma head_on_both_die :
  trains (game (snd (update head_on_world)))
  = [("A"%string, mkTrain (80, 200) [] RIGHT None false "A"%string)]
  /\ trains (game (snd (update (snd (update head_on_world))))) = [].
Proof. vm_compute. split; reflexivity. Qed.
